(** * PiPico game engine with ILI9341 TFT: driver, graphics surface, engine loop

    A shallow embedding of
      - [Driver/tft_ili9341.py]  (class [ILI9341]),
      - [Engine/gfx_pico.py]     (class [PicoGFX]),
      - [Engine/engine_core.py]  (classes [InputState], [Engine]),
    followed by the properties of the display protocol, the clipped and
    unclipped drawing primitives, text measurement and rasterisation, and the
    engine's per-tick input and double-tap handling.

    Conventions.
      - Python integers are unbounded: they are [Z]; [>>] is [Z.shiftr] and
        [&] is [Z.land] (both agree with Python on negative numbers), [//] by
        a positive divisor is [Z.div].
      - [bytes] and [bytearray] values are [list Z] whose elements are in
        [0..255]; an indexed store is stdpp's [<[i:=v]>] behind an explicit
        range check, because Python raises [IndexError] out of range.
      - A text is a [string] of one-byte characters, each taking one 8x8
        glyph cell.
      - What a method does to the hardware is the list of bus operations it
        performs, in order. *)

From Stdlib Require Import ZArith Lia Bool.
From Stdlib Require DecimalString.
From Stdlib Require Import Ascii.
From stdpp Require Import base list gmap strings.

Open Scope Z_scope.

(** ** Bus operations of the display driver *)

(** One pin write or one SPI transfer, as [ILI9341] issues them. *)
Inductive bus_op : Type :=
  | DC (level : bool)             (* self.dc.value(level) *)
  | CS (level : bool)             (* self.cs.value(level) *)
  | SPI_write (data : list Z).    (* self.spi.write(data) *)

Definition bus_trace := list bus_op.

(** The bytes that went over SPI, in order, whatever the pin states. *)
Fixpoint spi_bytes (t : bus_trace) : list Z :=
  match t with
  | [] => []
  | SPI_write d :: t' => d ++ spi_bytes t'
  | _ :: t' => spi_bytes t'
  end.

Definition is_spi_write (o : bus_op) : bool :=
  match o with SPI_write _ => true | _ => false end.

(** ** Python sequence helpers *)

(** [len(text)] *)
Definition len (text : string) : Z := Z.of_nat (String.length text).

(** [bytearray(n)]: [n] zero bytes. *)
Definition bytearray (n : Z) : list Z := replicate (Z.to_nat n) 0.

(** [range(n)] *)
Definition py_range (n : Z) : list Z := seqZ 0 n.

(** [range(0, n, 2)] *)
Definition py_range_step2 (n : Z) : list Z :=
  (fun k => 2 * k) <$> seqZ 0 ((n + 1) / 2).

(** Position of index [i] in a sequence of length [n]: Python counts a
    negative index from the end and raises [IndexError] outside
    [-n .. n-1]. *)
Definition py_index (n : nat) (i : Z) : option nat :=
  if (0 <=? i) && (i <? Z.of_nat n) then Some (Z.to_nat i)
  else if (- Z.of_nat n <=? i) && (i <? 0) then Some (Z.to_nat (Z.of_nat n + i))
  else None.

(** [buf[i]] *)
Definition getitem (buf : list Z) (i : Z) : option Z :=
  k ← py_index (length buf) i; buf !! k.

(** [buf[i] = v] *)
Definition setitem (buf : list Z) (i : Z) (v : Z) : option (list Z) :=
  k ← py_index (length buf) i; Some (<[k:=v]> buf).

(** [for x in xs: body], threading the mutated state; an exception in the
    body ends the loop. *)
Fixpoint for_each {A St : Type} (xs : list A) (body : A -> St -> option St)
    (s : St) : option St :=
  match xs with
  | [] => Some s
  | x :: xs' => s' ← body x s; for_each xs' body s'
  end.

(** The truth value of a string: [not text] holds of the empty string only. *)
Definition py_not (text : string) : bool :=
  match text with
  | EmptyString => true
  | String _ _ => false
  end.

(** The firmware's [framebuf.FrameBuffer(buf, w, h, framebuf.RGB565)] with
    its [text] method is not part of the repository.  It is taken as an
    interface: [fb_text buf w h text colour] is [buf] after
    [fb.text(text, 0, 0, colour)]; the only law used is that the frame buffer
    draws in place, in the caller's [bytearray], whose size it cannot
    change. *)
Class FrameBuffer : Type := {
  fb_text : list Z -> Z -> Z -> string -> Z -> list Z;
  fb_text_length :
    forall buf w h text colour,
      length (fb_text buf w h text colour) = length buf
}.

(** ** [Driver/tft_ili9341.py] *)

Module ILI9341.

Record t : Type := mk {
  width : Z;
  height : Z
}.

(** [ILI9341.__init__] defaults: [width=240, height=320]. *)
Definition default : t := mk 240 320.

Definition hi8 (v : Z) : Z := Z.land (Z.shiftr v 8) 0xFF.
Definition lo8 (v : Z) : Z := Z.land v 0xFF.

Definition _write_cmd (cmd : Z) : bus_trace :=
  [DC false; CS false; SPI_write [cmd]; CS true].

Definition _write_data (data_bytes : list Z) : bus_trace :=
  [DC true; CS false; SPI_write data_bytes; CS true].

Definition _set_window (x0 y0 x1 y1 : Z) : bus_trace :=
  _write_cmd 0x2A
  ++ _write_data [hi8 x0; lo8 x0; hi8 x1; lo8 x1]
  ++ _write_cmd 0x2B
  ++ _write_data [hi8 y0; lo8 y0; hi8 y1; lo8 y1]
  ++ _write_cmd 0x2C.

Definition _set_window_for_read (x0 y0 x1 y1 : Z) : bus_trace :=
  _write_cmd 0x2A
  ++ _write_data [hi8 x0; lo8 x0; hi8 x1; lo8 x1]
  ++ _write_cmd 0x2B
  ++ _write_data [hi8 y0; lo8 y0; hi8 y1; lo8 y1]
  ++ _write_cmd 0x2E.

(** [bytes([hi, lo]) * 64] *)
Definition colour_chunk (hi lo : Z) : list Z := mjoin (replicate 64 [hi; lo]).

(** The [while pixels > 0] loop of [fill_rect]; every iteration lowers
    [pixels] by at least one, so [Z.to_nat pixels] iterations are enough
    (see [stream_pixels_unfold]). *)
Fixpoint stream_pixels_loop (fuel : nat) (chunk : list Z) (pixels : Z)
    : bus_trace :=
  match fuel with
  | O => []
  | S fuel' =>
      if 0 <? pixels then
        let n := if pixels <? 64 then pixels else 64 in
        SPI_write (take (Z.to_nat (n * 2)) chunk)
          :: stream_pixels_loop fuel' chunk (pixels - n)
      else []
  end.

Definition stream_pixels (chunk : list Z) (pixels : Z) : bus_trace :=
  stream_pixels_loop (Z.to_nat pixels) chunk pixels.

Definition fill_rect (self : t) (x y w h colour : Z) : bus_trace :=
  if (w <=? 0) || (h <=? 0) then []
  else
    let x1 := x + w - 1 in
    let y1 := y + h - 1 in
    if (x <? 0) || (y <? 0) || (x1 >=? width self) || (y1 >=? height self)
    then []
    else
      let hi := hi8 colour in
      let lo := lo8 colour in
      let chunk := colour_chunk hi lo in
      let pixels := w * h in
      _set_window x y x1 y1
      ++ [DC true; CS false]
      ++ stream_pixels chunk pixels
      ++ [CS true].

Definition clear (self : t) (colour : Z) : bus_trace :=
  fill_rect self 0 0 (width self) (height self) colour.

Definition pixel (self : t) (x y colour : Z) : bus_trace :=
  if (0 <=? x) && (x <? width self) && (0 <=? y) && (y <? height self)
  then _set_window x y x y ++ _write_data [hi8 colour; lo8 colour]
  else [].

Definition blit_rgb565 (x y w h : Z) (buf : list Z) : bus_trace :=
  _set_window x y (x + w - 1) (y + h - 1) ++ _write_data buf.

(** [text(self, x, y, text, colour=0xFFFF, bg=0x0000)]; [None] stands for an
    uncaught exception.  The background loop is
    [for i in range(0, len(buf), 2): buf[i] = hi_bg; buf[i + 1] = lo_bg]. *)
Definition text `{FrameBuffer} (x y : Z) (text : string) (colour bg : Z)
    : option bus_trace :=
  if py_not text then Some []
  else
    let w := 8 * len text in
    let h := 8 in
    let buf := bytearray (w * h * 2) in
    let hi_bg := hi8 bg in
    let lo_bg := lo8 bg in
    buf ← for_each (py_range_step2 (Z.of_nat (length buf)))
            (fun i buf =>
               buf ← setitem buf i hi_bg;
               setitem buf (i + 1) lo_bg)
            buf;
    let buf := fb_text buf w h text colour in
    Some (blit_rgb565 x y w h buf).

End ILI9341.

(** ** [Engine/gfx_pico.py] *)

Module PicoGFX.

(** A sprite dict [{"w": w, "h": h, "data": data, "path": path}]. *)
Record sprite : Type := mkSprite {
  spr_w : Z;
  spr_h : Z;
  spr_data : list Z;
  spr_path : option string
}.

(** [self._text_cache]: key [(text, colour, bg, scale)]. *)
Record t : Type := mk {
  tft : ILI9341.t;
  width : Z;
  height : Z;
  _text_cache : gmap (string * Z * option Z * Z) sprite
}.

(** [PicoGFX.__init__], for the driver object it builds. *)
Definition init (tft : ILI9341.t) : t :=
  mk tft (ILI9341.width tft) (ILI9341.height tft) ∅.

Definition set_text_cache (c : gmap (string * Z * option Z * Z) sprite)
    (self : t) : t :=
  mk (tft self) (width self) (height self) c.

Definition clear (self : t) (colour : Z) : bus_trace :=
  ILI9341.clear (tft self) colour.

Definition fill_rect (self : t) (x y w h colour : Z) : bus_trace :=
  ILI9341.fill_rect (tft self) x y w h colour.

Definition safe_fill_rect (self : t) (x y w h colour : Z) : bus_trace :=
  if (w <=? 0) || (h <=? 0) then []
  else
    let x0 := Z.max 0 x in
    let y0 := Z.max 0 y in
    let x1 := Z.min (width self) (x + w) in
    let y1 := Z.min (height self) (y + h) in
    let cw := x1 - x0 in
    let ch := y1 - y0 in
    if (cw <=? 0) || (ch <=? 0) then []
    else fill_rect self x0 y0 cw ch colour.

Definition draw_image_rgb565 (x y w h : Z) (buf : list Z) : bus_trace :=
  ILI9341.blit_rgb565 x y w h buf.

Definition clear_caches (self : t) : t := set_text_cache ∅ self.

Definition get_text_size (text : string) (scale : Z) : Z * Z :=
  let scale := if scale <? 1 then 1 else scale in
  let base_w := 8 * len text in
  let base_h := 8 in
  (base_w * scale, base_h * scale).

Definition draw_sprite (spr : sprite) (x y : Z) : bus_trace :=
  draw_image_rgb565 x y (spr_w spr) (spr_h spr) (spr_data spr).

(** Lines 176-195 of [_render_text_sprite]: the 1x buffer, background
    filled, then the glyphs drawn by the frame buffer. *)
Definition render_base `{FrameBuffer} (text : string) (colour : Z)
    (bg : option Z) : option (list Z) :=
  let base_w := 8 * len text in
  let base_h := 8 in
  let small_buf := bytearray (base_w * base_h * 2) in
  let '(hi_bg, lo_bg) :=
    match bg with
    | None => (0, 0)
    | Some bg => (ILI9341.hi8 bg, ILI9341.lo8 bg)
    end in
  small_buf ← for_each (py_range_step2 (Z.of_nat (length small_buf)))
                (fun i buf =>
                   buf ← setitem buf i hi_bg;
                   setitem buf (i + 1) lo_bg)
                small_buf;
  Some (fb_text small_buf base_w base_h text colour).

(** Lines 207-218: the nearest-neighbour copy into [out_buf]. *)
Definition scale_up (small_buf : list Z) (base_w base_h scale : Z)
    : option (list Z) :=
  let out_w := base_w * scale in
  let out_h := base_h * scale in
  let out_buf := bytearray (out_w * out_h * 2) in
  for_each (py_range out_h)
    (fun sy out_buf =>
       let src_y := sy / scale in
       for_each (py_range out_w)
         (fun sx out_buf =>
            let src_x := sx / scale in
            let src_index := 2 * (src_y * base_w + src_x) in
            let dst_index := 2 * (sy * out_w + sx) in
            v ← getitem small_buf src_index;
            out_buf ← setitem out_buf dst_index v;
            v ← getitem small_buf (src_index + 1);
            setitem out_buf (dst_index + 1) v)
         out_buf)
    out_buf.

Definition _render_text_sprite `{FrameBuffer} (text : string) (colour : Z)
    (bg : option Z) (scale : Z) : option sprite :=
  let scale := if scale <? 1 then 1 else scale in
  let base_w := 8 * len text in
  let base_h := 8 in
  small_buf ← render_base text colour bg;
  if scale =? 1 then Some (mkSprite base_w base_h small_buf None)
  else
    let out_w := base_w * scale in
    let out_h := base_h * scale in
    out_buf ← scale_up small_buf base_w base_h scale;
    Some (mkSprite out_w out_h out_buf None).

Definition _get_text_sprite `{FrameBuffer} (self : t) (text : string)
    (colour : Z) (bg : option Z) (scale : Z) : option (t * sprite) :=
  let key := (text, colour, bg, scale) in
  match _text_cache self !! key with
  | Some spr => Some (self, spr)
  | None =>
      spr ← _render_text_sprite text colour bg scale;
      Some (set_text_cache (<[key:=spr]> (_text_cache self)) self, spr)
  end.

(** Lines 113-120 of [draw_text]: the position after clamping, for a text
    box of [w] by [h]. *)
Definition clamp_origin (self : t) (x y w h : Z) : Z * Z :=
  let x := if x <? 0 then 0 else x in
  let y := if y <? 0 then 0 else y in
  let x := if x + w >? width self then width self - w else x in
  let y := if y + h >? height self then height self - h else y in
  (x, y).

(** Lines 130-131 of [draw_text], the sprite path, at an already clamped
    position. *)
Definition draw_text_via_sprite `{FrameBuffer} (self : t) (x y : Z)
    (text : string) (colour : Z) (bg : option Z) (scale : Z)
    : option (t * bus_trace) :=
  '(self, spr) ← _get_text_sprite self text colour bg scale;
  Some (self, draw_sprite spr x y).

(** [draw_text(x, y, text, colour=0xFFFF, bg=None, scale=1)]: the object
    after the call (its cache may have grown) and the bus traffic. *)
Definition draw_text `{FrameBuffer} (self : t) (x y : Z) (text : string)
    (colour : Z) (bg : option Z) (scale : Z) : option (t * bus_trace) :=
  if py_not text then Some (self, [])
  else
    let scale := if scale <? 1 then 1 else scale in
    let '(w, h) := get_text_size text scale in
    let '(x, y) := clamp_origin self x y w h in
    if (scale =? 1) && (if bg is None then true else false) then
      tr ← ILI9341.text x y text colour 0x0000;
      Some (self, tr)
    else draw_text_via_sprite self x y text colour bg scale.

End PicoGFX.

(** ** [Engine/engine_core.py] *)

Module Engine.

Record InputState : Type := mkInputState {
  up : bool;
  down : bool;
  left : bool;
  right : bool;
  a : bool;
  b : bool;
  up_pressed : bool;
  down_pressed : bool;
  left_pressed : bool;
  right_pressed : bool;
  a_pressed : bool;
  b_pressed : bool
}.

(** [InputState.__init__] *)
Definition InputState_init : InputState :=
  mkInputState false false false false false false
               false false false false false false.

(** The six buttons, to speak of a field by name. *)
Inductive button : Type := Up | Down | Left | Right | A | B.

Definition all_buttons : list button := [Up; Down; Left; Right; A; B].

(** The raw level field of a button. *)
Definition level (i : button) (s : InputState) : bool :=
  match i with
  | Up => up s | Down => down s | Left => left s
  | Right => right s | A => a s | B => b s
  end.

(** The [*_pressed] field of a button. *)
Definition pressed (i : button) (s : InputState) : bool :=
  match i with
  | Up => up_pressed s | Down => down_pressed s | Left => left_pressed s
  | Right => right_pressed s | A => a_pressed s | B => b_pressed s
  end.

(** The engine object.  [frame_budget_ms] is [int(self.frame_time * 1000)],
    the only use the loop makes of the floating-point [frame_time];
    [has_input_provider] says whether [self.input_provider] is not [None]
    (what the provider returns is an input of each tick). *)
Record t : Type := mk {
  frame_budget_ms : Z;
  has_input_provider : bool;
  _current_input : InputState;
  _prev_input : InputState;
  _running : bool;
  _last_up_press_time : option Z;
  _double_tap_threshold_ms : Z
}.

(** [Engine.__init__] *)
Definition init (frame_budget_ms : Z) (has_input_provider : bool) : t :=
  mk frame_budget_ms has_input_provider InputState_init InputState_init
     true None 400.

Definition set_inputs (prev cur : InputState) (self : t) : t :=
  mk (frame_budget_ms self) (has_input_provider self) cur prev
     (_running self) (_last_up_press_time self)
     (_double_tap_threshold_ms self).

Definition set_running (r : bool) (self : t) : t :=
  mk (frame_budget_ms self) (has_input_provider self) (_current_input self)
     (_prev_input self) r (_last_up_press_time self)
     (_double_tap_threshold_ms self).

Definition set_last_up_press_time (v : option Z) (self : t) : t :=
  mk (frame_budget_ms self) (has_input_provider self) (_current_input self)
     (_prev_input self) (_running self) v (_double_tap_threshold_ms self).

(** What [_update_input] reads as [raw], given what the provider would
    return. *)
Definition raw_input (self : t) (sample : InputState) : InputState :=
  if has_input_provider self then sample else InputState_init.

Definition _update_input (self : t) (sample : InputState) : t :=
  let raw := raw_input self sample in
  let prev := _current_input self in
  let cur :=
    {| up := up raw; down := down raw; left := left raw;
       right := right raw; a := a raw; b := b raw;
       up_pressed := up raw && negb (up prev);
       down_pressed := down raw && negb (down prev);
       left_pressed := left raw && negb (left prev);
       right_pressed := right raw && negb (right prev);
       a_pressed := a raw && negb (a prev);
       b_pressed := b raw && negb (b prev) |} in
  set_inputs prev cur self.

Definition stop (self : t) : t := set_running false self.

(** A call the engine makes, in the order it makes them. *)
Inductive event : Type :=
  | EvOnPressed (i : button)                    (* game.on_<i>_pressed() *)
  | EvReset                                     (* game.reset() *)
  | EvUpdate (dt_ms : Z) (inp : InputState)     (* game.update(dt, input) *)
  | EvShouldRedraw                              (* game.should_redraw() *)
  | EvDraw                                      (* game.draw(self.gfx) *)
  | EvPresent                                   (* self.gfx.present() *)
  | EvSleep (ms : Z).                           (* time.sleep_ms(ms) *)

Definition is_reset (e : event) : bool :=
  match e with EvReset => true | _ => false end.
Definition is_on_pressed (i : button) (e : event) : bool :=
  match e, i with
  | EvOnPressed Up, Up | EvOnPressed Down, Down | EvOnPressed Left, Left
  | EvOnPressed Right, Right | EvOnPressed A, A | EvOnPressed B, B => true
  | _, _ => false
  end.

(** The game object, over its own state [G].  [update] and [draw] are
    called unconditionally; the other members are looked up with [hasattr],
    so each may be absent.  [update] receives the elapsed milliseconds (the
    source divides them by [1000.0] on the way).  A callback is a change of
    the game's own state that returns normally: it neither raises nor
    writes to the engine's fields or its input snapshots. *)
Record Game (G : Type) : Type := mkGame {
  update : Z -> InputState -> G -> G;
  draw : G -> G;
  should_redraw : option (G -> bool);
  reset : option (G -> G);
  on_up_pressed : option (G -> G);
  on_down_pressed : option (G -> G);
  on_left_pressed : option (G -> G);
  on_right_pressed : option (G -> G);
  on_a_pressed : option (G -> G);
  on_b_pressed : option (G -> G)
}.
Arguments update {G}.
Arguments draw {G}.
Arguments should_redraw {G}.
Arguments reset {G}.
Arguments on_up_pressed {G}.
Arguments on_down_pressed {G}.
Arguments on_left_pressed {G}.
Arguments on_right_pressed {G}.
Arguments on_a_pressed {G}.
Arguments on_b_pressed {G}.

(** The handler of a button, if the game has one. *)
Definition handler {G} (game : Game G) (i : button) : option (G -> G) :=
  match i with
  | Up => on_up_pressed game | Down => on_down_pressed game
  | Left => on_left_pressed game | Right => on_right_pressed game
  | A => on_a_pressed game | B => on_b_pressed game
  end.

(** What one pass of the loop reads from outside: [time.ticks_ms()] at its
    start, what the input provider would return, and [time.ticks_ms()]
    again before pacing (read only on a pass that gets that far). *)
Record tick_input : Type := mkTick {
  tick_now : Z;
  tick_sample : InputState;
  tick_end : Z
}.

Section Loop.

(** [time.ticks_diff] of the firmware. *)
Variable ticks_diff : Z -> Z -> Z.

Context {G : Type} (game : Game G).

(** [if cond and hasattr(game, name): game.name()] *)
Definition call_if (cond : bool) (h : option (G -> G)) (ev : event)
    (st : G * list event) : G * list event :=
  if cond then
    match h with
    | Some f => (f st.1, st.2 ++ [ev])
    | None => st
    end
  else st.

Definition _dispatch_input_events (self : t) (g : G) : G * list event :=
  let s := _current_input self in
  let st := (g, []) in
  let st := call_if (up_pressed s) (on_up_pressed game) (EvOnPressed Up) st in
  let st := call_if (down_pressed s) (on_down_pressed game) (EvOnPressed Down) st in
  let st := call_if (left_pressed s) (on_left_pressed game) (EvOnPressed Left) st in
  let st := call_if (right_pressed s) (on_right_pressed game) (EvOnPressed Right) st in
  let st := call_if (a_pressed s) (on_a_pressed game) (EvOnPressed A) st in
  let st := call_if (b_pressed s) (on_b_pressed game) (EvOnPressed B) st in
  st.

(** The variables a pass of the loop in [run] works on. *)
Record loop_state : Type := mkLoop {
  eng : t;
  gst : G;
  last_time : Z;
  first_frame : bool
}.

(** Lines 122-140: update, draw if needed, pacing. *)
Definition update_draw_pace (i : tick_input) (dt_ms : Z) (first_frame : bool)
    (self : t) (st : G * list event) : loop_state * list event :=
  let now := tick_now i in
  let '(g, tr) := st in
  let g := update game dt_ms (_current_input self) g in
  let tr := tr ++ [EvUpdate dt_ms (_current_input self)] in
  let '(should_draw, tr) :=
    match should_redraw game with
    | Some f => (f g || first_frame, tr ++ [EvShouldRedraw])
    | None => (true, tr)
    end in
  let '(g, tr) :=
    if should_draw then (draw game g, tr ++ [EvDraw; EvPresent])
    else (g, tr) in
  let elapsed_ms := ticks_diff (tick_end i) now in
  let spare := frame_budget_ms self - elapsed_ms in
  let tr := if spare >? 0 then tr ++ [EvSleep spare] else tr in
  (mkLoop self g now false, tr).

(** One pass of the body of [while self._running] in [run], lines 99-140. *)
Definition tick (i : tick_input) (w : loop_state) : loop_state * list event :=
  let now := tick_now i in
  let dt_ms := ticks_diff now (last_time w) in
  let self := _update_input (eng w) (tick_sample i) in
  let st := _dispatch_input_events self (gst w) in
  if up_pressed (_current_input self) then
    match _last_up_press_time self with
    | Some t0 =>
        let diff := ticks_diff now t0 in
        if diff <=? _double_tap_threshold_ms self then
          let self := set_last_up_press_time None self in
          let '(g, tr) := call_if true (reset game) EvReset st in
          (* continue *)
          (mkLoop self g now (first_frame w), tr)
        else
          let self := set_last_up_press_time (Some now) self in
          update_draw_pace i dt_ms (first_frame w) self st
    | None =>
        let self := set_last_up_press_time (Some now) self in
        update_draw_pace i dt_ms (first_frame w) self st
    end
  else update_draw_pace i dt_ms (first_frame w) self st.

(** The loop over the passes for which readings are given; it stops early
    once [_running] is false. *)
Fixpoint run_loop (ins : list tick_input) (w : loop_state)
    : loop_state * list event :=
  match ins with
  | [] => (w, [])
  | i :: ins' =>
      if _running (eng w) then
        let '(w1, tr1) := tick i w in
        let '(w2, tr2) := run_loop ins' w1 in
        (w2, tr1 ++ tr2)
      else (w, [])
  end.

(** The input snapshot [_current_input] left by each pass of the same
    loop. *)
Fixpoint run_snapshots (ins : list tick_input) (w : loop_state)
    : list InputState :=
  match ins with
  | [] => []
  | i :: ins' =>
      if _running (eng w) then
        let w1 := (tick i w).1 in
        _current_input (eng w1) :: run_snapshots ins' w1
      else []
  end.

(** The state [run(game)] enters its loop with; [start] is the first
    [time.ticks_ms()]. *)
Definition run_entry (self : t) (g : G) (start : Z) : loop_state :=
  mkLoop (set_running true self) g start true.

Definition run (self : t) (g : G) (start : Z) (ins : list tick_input)
    : loop_state * list event :=
  run_loop ins (run_entry self g start).

End Loop.

(** [time.ticks_diff] as the RP2 firmware computes it: tick counts are 30
    bits wide and the difference is taken in the signed half range. *)
Definition ticks_diff_rp2 (t1 t0 : Z) : Z :=
  Z.land (t1 - t0 + 2 ^ 29) (2 ^ 30 - 1) - 2 ^ 29.

End Engine.

(** ** A frame buffer after the firmware's

    The RGB565 frame buffer of the MicroPython firmware, to have an inhabitant
    of [FrameBuffer] to run the code on.  A glyph is eight column bytes, bit
    0 at the top; a pixel is stored as a native (little-endian) 16-bit word
    at word index [x + y * stride]; characters outside [32..127] draw as
    character 127.  The glyph table itself is a parameter. *)

Module Framebuf.

Section WithFont.

(** [font chr j]: column [j] of the glyph of character [chr]. *)
Variable font : Z -> Z -> Z.

Definition setpixel (buf : list Z) (stride x y col : Z) : list Z :=
  let idx := x + y * stride in
  <[Z.to_nat (2 * idx + 1) := Z.land (Z.shiftr col 8) 0xFF]>
    (<[Z.to_nat (2 * idx) := Z.land col 0xFF]> buf).

Definition draw_column (buf : list Z) (w h x y0 vline_data col : Z)
    : list Z :=
  foldl (fun buf k =>
           if Z.testbit vline_data k && (0 <=? y0 + k) && (y0 + k <? h)
           then setpixel buf w x (y0 + k) col
           else buf)
        buf (py_range 8).

Definition draw_char (buf : list Z) (w h x0 y0 chr col : Z) : list Z :=
  let chr := if (chr <? 32) || (chr >? 127) then 127 else chr in
  foldl (fun buf j =>
           let x := x0 + j in
           if (0 <=? x) && (x <? w)
           then draw_column buf w h x y0 (font chr j) col
           else buf)
        buf (py_range 8).

Fixpoint draw_string (buf : list Z) (w h : Z) (s : string) (x0 y0 col : Z)
    : list Z :=
  match s with
  | EmptyString => buf
  | String c s' =>
      let chr := Z.of_N (Ascii.N_of_ascii c) in
      draw_string (draw_char buf w h x0 y0 chr col) w h s' (x0 + 8) y0 col
  end.

Lemma setpixel_length buf stride x y col :
  length (setpixel buf stride x y col) = length buf.
Proof. unfold setpixel. by rewrite !length_insert. Qed.

Lemma foldl_length_preserved {A} (f : list Z -> A -> list Z) (xs : list A) :
  (forall b x, length (f b x) = length b) ->
  forall buf, length (foldl f buf xs) = length buf.
Proof.
  intros Hf. induction xs as [|x xs IH]; intros buf; simpl; [done|].
  by rewrite IH, Hf.
Qed.

Lemma draw_column_length buf w h x y0 v col :
  length (draw_column buf w h x y0 v col) = length buf.
Proof.
  unfold draw_column. apply foldl_length_preserved. intros b k.
  destruct (_ && _); [apply setpixel_length | done].
Qed.

Lemma draw_char_length buf w h x0 y0 chr col :
  length (draw_char buf w h x0 y0 chr col) = length buf.
Proof.
  unfold draw_char. apply foldl_length_preserved. intros b k.
  destruct (_ && _); [apply draw_column_length | done].
Qed.

Lemma draw_string_length s : forall buf w h x0 y0 col,
  length (draw_string buf w h s x0 y0 col) = length buf.
Proof.
  induction s as [|c s IH]; intros; simpl; [done|].
  by rewrite IH, draw_char_length.
Qed.

Definition frame_buffer : FrameBuffer :=
  {| fb_text := fun buf w h text colour => draw_string buf w h text 0 0 colour;
     fb_text_length := fun buf w h text colour =>
                         draw_string_length text buf w h 0 0 colour |}.

End WithFont.

(** A stand-in glyph table (the firmware's is not in the repository). *)
Definition sample_font (chr j : Z) : Z := Z.land (chr * (j + 3)) 0xFF.

Definition sample : FrameBuffer := frame_buffer sample_font.

End Framebuf.

(** * Properties *)

(** ** Arithmetic of the byte split *)

Lemma lo8_mod (v : Z) : ILI9341.lo8 v = v mod 256.
Proof.
  unfold ILI9341.lo8. change 0xFF with (Z.ones 8).
  by rewrite Z.land_ones.
Qed.

Lemma hi8_mod (v : Z) : ILI9341.hi8 v = (v / 256) mod 256.
Proof.
  unfold ILI9341.hi8. change 0xFF with (Z.ones 8).
  by rewrite Z.land_ones, Z.shiftr_div_pow2.
Qed.

(** The two bytes of a 16-bit big-endian number, in the spec's words: high
    byte, then low byte. *)
Definition spec_be16 (v : Z) : list Z := [v / 256; v mod 256].

Lemma hi8_lo8_be16 (v : Z) :
  [ILI9341.hi8 v; ILI9341.lo8 v] = spec_be16 (v mod 65536).
Proof.
  rewrite hi8_mod, lo8_mod. unfold spec_be16.
  f_equal; [|f_equal]; Z.div_mod_to_equations; lia.
Qed.

Lemma hi8_range (v : Z) : 0 <= ILI9341.hi8 v < 256.
Proof. rewrite hi8_mod. apply Z.mod_pos_bound. lia. Qed.

Lemma lo8_range (v : Z) : 0 <= ILI9341.lo8 v < 256.
Proof. rewrite lo8_mod. apply Z.mod_pos_bound. lia. Qed.

(** ** The pixel streaming loop of [fill_rect] *)

Lemma stream_pixels_loop_fuel chunk : forall (fuel1 fuel2 : nat) (pixels : Z),
  (Z.to_nat pixels <= fuel1)%nat -> (Z.to_nat pixels <= fuel2)%nat ->
  ILI9341.stream_pixels_loop fuel1 chunk pixels
  = ILI9341.stream_pixels_loop fuel2 chunk pixels.
Proof.
  induction fuel1 as [|fuel1 IH]; intros [|fuel2] pixels H1 H2; simpl;
    try done.
  - by rewrite (proj2 (Z.ltb_ge 0 pixels)) by lia.
  - by rewrite (proj2 (Z.ltb_ge 0 pixels)) by lia.
  - destruct (0 <? pixels) eqn:Hp; [|done].
    apply Z.ltb_lt in Hp. f_equal.
    apply IH; destruct (pixels <? 64); lia.
Qed.

Lemma stream_pixels_loop_enough chunk (fuel : nat) (pixels : Z) :
  (Z.to_nat pixels <= fuel)%nat ->
  ILI9341.stream_pixels_loop fuel chunk pixels
  = ILI9341.stream_pixels chunk pixels.
Proof.
  intros. unfold ILI9341.stream_pixels.
  by apply stream_pixels_loop_fuel.
Qed.

(** The loop as the source writes it: one chunk, then the rest. *)
Lemma stream_pixels_unfold chunk pixels :
  ILI9341.stream_pixels chunk pixels =
    if 0 <? pixels then
      let n := if pixels <? 64 then pixels else 64 in
      SPI_write (take (Z.to_nat (n * 2)) chunk)
        :: ILI9341.stream_pixels chunk (pixels - n)
    else [].
Proof.
  destruct (0 <? pixels) eqn:Hp.
  - apply Z.ltb_lt in Hp. unfold ILI9341.stream_pixels at 1.
    destruct (Z.to_nat pixels) as [|k] eqn:Hk; [lia|]. simpl.
    rewrite (proj2 (Z.ltb_lt 0 pixels)) by lia. cbv zeta. f_equal.
    apply stream_pixels_loop_enough. destruct (pixels <? 64); lia.
  - apply Z.ltb_ge in Hp. unfold ILI9341.stream_pixels.
    by replace (Z.to_nat pixels) with 0%nat by lia.
Qed.

Lemma take_colour_pairs (hi lo : Z) : forall n m : nat,
  (n <= m)%nat ->
  take (2 * n) (mjoin (replicate m [hi; lo])) = mjoin (replicate n [hi; lo]).
Proof.
  induction n as [|n IH]; intros m Hm; [done|].
  destruct m as [|m]; [lia|].
  replace (2 * S n)%nat with (S (S (2 * n))) by lia.
  simpl. do 2 f_equal. apply IH. lia.
Qed.

Lemma join_colour_pairs_add (hi lo : Z) (n m : nat) :
  mjoin (replicate n [hi; lo]) ++ mjoin (replicate m [hi; lo])
  = mjoin (replicate (n + m) [hi; lo]).
Proof. by rewrite replicate_add, join_app. Qed.

Lemma stream_pixels_payload (hi lo : Z) : forall (k : nat) (pixels : Z),
  (Z.to_nat pixels <= k)%nat ->
  spi_bytes (ILI9341.stream_pixels (ILI9341.colour_chunk hi lo) pixels)
  = mjoin (replicate (Z.to_nat pixels) [hi; lo])
  /\ forallb is_spi_write
       (ILI9341.stream_pixels (ILI9341.colour_chunk hi lo) pixels) = true.
Proof.
  induction k as [|k IH]; intros pixels Hk; rewrite stream_pixels_unfold.
  - rewrite (proj2 (Z.ltb_ge 0 pixels)) by lia.
    by replace (Z.to_nat pixels) with 0%nat by lia.
  - destruct (0 <? pixels) eqn:Hp.
    + apply Z.ltb_lt in Hp. cbv zeta.
      set (n := if pixels <? 64 then pixels else 64).
      assert (Hn : 0 < n <= 64 /\ n <= pixels)
        by (subst n; destruct (pixels <? 64) eqn:E;
            [apply Z.ltb_lt in E | apply Z.ltb_ge in E]; lia).
      destruct (IH (pixels - n)) as [Hb Hw]; [lia|].
      simpl. rewrite Hb, Hw. split; [|done].
      replace (Z.to_nat (n * 2)) with (2 * Z.to_nat n)%nat by lia.
      unfold ILI9341.colour_chunk. rewrite take_colour_pairs by lia.
      rewrite join_colour_pairs_add. f_equal. f_equal. lia.
    + apply Z.ltb_ge in Hp.
      by replace (Z.to_nat pixels) with 0%nat by lia.
Qed.

(** What [fill_rect] puts on the bus when it draws. *)
Definition fill_rect_drawn (x y w h colour : Z) (tr : bus_trace) : Prop :=
  exists body,
    tr = ILI9341._set_window x y (x + w - 1) (y + h - 1)
         ++ [DC true; CS false] ++ body ++ [CS true]
    /\ forallb is_spi_write body = true
    /\ spi_bytes body
       = mjoin (replicate (Z.to_nat (w * h))
                          [ILI9341.hi8 colour; ILI9341.lo8 colour]).

Lemma fill_rect_inside (self : ILI9341.t) (x y w h colour : Z) :
  0 < w -> 0 < h -> 0 <= x -> 0 <= y ->
  x + w <= ILI9341.width self -> y + h <= ILI9341.height self ->
  fill_rect_drawn x y w h colour (ILI9341.fill_rect self x y w h colour).
Proof.
  intros. unfold ILI9341.fill_rect.
  rewrite (proj2 (Z.leb_gt w 0)), (proj2 (Z.leb_gt h 0)) by lia. simpl.
  rewrite (proj2 (Z.ltb_ge x 0)), (proj2 (Z.ltb_ge y 0)) by lia.
  rewrite !Z.geb_leb.
  rewrite (proj2 (Z.leb_gt _ _)), (proj2 (Z.leb_gt _ _)) by lia. simpl.
  destruct (stream_pixels_payload (ILI9341.hi8 colour) (ILI9341.lo8 colour)
              (Z.to_nat (w * h)) (w * h)) as [Hb Hw]; [lia|].
  eexists. split; [reflexivity|]. by split.
Qed.

Lemma fill_rect_outside (self : ILI9341.t) (x y w h colour : Z) :
  w <= 0 \/ h <= 0 \/ x < 0 \/ y < 0
  \/ ILI9341.width self < x + w \/ ILI9341.height self < y + h ->
  ILI9341.fill_rect self x y w h colour = [].
Proof.
  intros Hc. unfold ILI9341.fill_rect.
  destruct (w <=? 0) eqn:Hw; [done|]. destruct (h <=? 0) eqn:Hh; [done|].
  apply Z.leb_gt in Hw, Hh. simpl. rewrite !Z.geb_leb.
  destruct (x <? 0) eqn:E1; [done|]. destruct (y <? 0) eqn:E2; [done|].
  destruct (ILI9341.width self <=? x + w - 1) eqn:E3; [done|].
  destruct (ILI9341.height self <=? y + h - 1) eqn:E4; [done|].
  apply Z.ltb_ge in E1, E2. apply Z.leb_gt in E3, E4. lia.
Qed.

Lemma fill_rect_drawn_nonempty x y w h colour tr :
  fill_rect_drawn x y w h colour tr -> tr <> [].
Proof. intros (body & -> & _) Hnil. discriminate Hnil. Qed.

(** The rectangle [(x, y, x+w-1, y+h-1)] lies within
    [[0,width) x [0,height)]: both corners do. *)
Definition rect_within (self : ILI9341.t) (x y w h : Z) : Prop :=
  0 <= x < ILI9341.width self /\ 0 <= x + w - 1 < ILI9341.width self
  /\ 0 <= y < ILI9341.height self /\ 0 <= y + h - 1 < ILI9341.height self.

(** ** C7: the addressing protocol *)

(** C7. For every [(x0, y0, x1, y1)], setting the write window emits the
    column-address-set command [0x2A] followed, as data, by the two x bounds
    as 16-bit big-endian numbers, the row-address-set command [0x2B]
    followed by the two y bounds likewise, then the write-to-RAM command
    [0x2C]; the read variant emits the same addressing and ends with the
    read-from-RAM command [0x2E] instead.  The 16-bit number sent for a bound
    [v] is [v mod 65536], which is [v] itself for a bound in [0 .. 65535]. *)
Theorem set_window_protocol (x0 y0 x1 y1 : Z) :
  let addressing :=
    ILI9341._write_cmd 0x2A
    ++ ILI9341._write_data (spec_be16 (x0 mod 65536) ++ spec_be16 (x1 mod 65536))
    ++ ILI9341._write_cmd 0x2B
    ++ ILI9341._write_data (spec_be16 (y0 mod 65536) ++ spec_be16 (y1 mod 65536)) in
  ILI9341._set_window x0 y0 x1 y1 = addressing ++ ILI9341._write_cmd 0x2C
  /\ ILI9341._set_window_for_read x0 y0 x1 y1
     = addressing ++ ILI9341._write_cmd 0x2E
  /\ spi_bytes (ILI9341._set_window x0 y0 x1 y1)
     = [0x2A] ++ spec_be16 (x0 mod 65536) ++ spec_be16 (x1 mod 65536)
       ++ [0x2B] ++ spec_be16 (y0 mod 65536) ++ spec_be16 (y1 mod 65536)
       ++ [0x2C]
  /\ Forall (fun v => 0 <= v < 65536 -> v mod 65536 = v) [x0; y0; x1; y1]
  /\ Forall (fun byte => 0 <= byte < 256)
       (spi_bytes (ILI9341._set_window x0 y0 x1 y1)).
Proof.
  cbv zeta. split; [|split; [|split; [|split]]].
  - unfold ILI9341._set_window. by rewrite <- !hi8_lo8_be16.
  - unfold ILI9341._set_window_for_read. by rewrite <- !hi8_lo8_be16.
  - unfold ILI9341._set_window. by rewrite <- !hi8_lo8_be16.
  - repeat constructor; intros; by apply Z.mod_small.
  - unfold ILI9341._set_window. simpl.
    repeat constructor; try apply hi8_range; try apply lo8_range; done.
Qed.

(** ** C5: the unclipped fill *)

(** C5. For every [(x, y, w, h, colour)], [ILI9341.fill_rect] puts nothing
    on the bus (no window command, no pixel write) exactly when [w <= 0],
    [h <= 0] or the rectangle [(x, y, x+w-1, y+h-1)] is not within
    [[0,width) x [0,height)]; otherwise it sets the window to exactly that
    rectangle, selects data mode, and streams SPI writes whose bytes are
    [w*h] repetitions of the colour's high byte then low byte. *)
Theorem fill_rect_unclipped (self : ILI9341.t) (x y w h colour : Z) :
  (ILI9341.fill_rect self x y w h colour = []
   <-> w <= 0 \/ h <= 0 \/ ~ rect_within self x y w h)
  /\ (ILI9341.fill_rect self x y w h colour = []
      \/ fill_rect_drawn x y w h colour
           (ILI9341.fill_rect self x y w h colour))
  /\ [ILI9341.hi8 colour; ILI9341.lo8 colour] = spec_be16 (colour mod 65536).
Proof.
  assert (Hdec : (w <= 0 \/ h <= 0 \/ x < 0 \/ y < 0
                  \/ ILI9341.width self < x + w
                  \/ ILI9341.height self < y + h)
                 \/ (0 < w /\ 0 < h /\ 0 <= x /\ 0 <= y
                     /\ x + w <= ILI9341.width self
                     /\ y + h <= ILI9341.height self)) by lia.
  split; [|split; [|apply hi8_lo8_be16]].
  - destruct Hdec as [Hout | (? & ? & ? & ? & ? & ?)].
    + rewrite fill_rect_outside by done. split; [intros _|done].
      unfold rect_within. lia.
    + split.
      * intros Hnil. exfalso.
        eapply fill_rect_drawn_nonempty; [|exact Hnil].
        by apply fill_rect_inside.
      * unfold rect_within. lia.
  - destruct Hdec as [Hout | (? & ? & ? & ? & ? & ?)].
    + left. by apply fill_rect_outside.
    + right. by apply fill_rect_inside.
Qed.

(** ** C3: the clipped fill *)

(** The surface size [PicoGFX.__init__] copies from its driver is the
    driver's. *)
Definition dims_ok (self : PicoGFX.t) : Prop :=
  PicoGFX.width self = ILI9341.width (PicoGFX.tft self)
  /\ PicoGFX.height self = ILI9341.height (PicoGFX.tft self).

Lemma init_dims_ok (tft : ILI9341.t) : dims_ok (PicoGFX.init tft).
Proof. by split. Qed.

(** C3. For every rectangle [(x, y, w, h)], negative or oversized ones
    included, [safe_fill_rect] either draws nothing, which it does exactly
    when the rectangle does not meet the surface, or delegates to
    [fill_rect] with exactly the intersection
    [[max 0 x, min width (x+w)) x [max 0 y, min height (y+h))] of the
    rectangle with the surface; that call draws, and its window lies within
    [[0,width) x [0,height)].  With [x=-5, y=0, w=10, h=10] on the 240-wide
    surface the rectangle drawn is [(0, 0, 5, 10)]. *)
Theorem safe_fill_rect_clipped (self : PicoGFX.t) (x y w h colour : Z) :
  dims_ok self ->
  let x0 := Z.max 0 x in
  let y0 := Z.max 0 y in
  let x1 := Z.min (PicoGFX.width self) (x + w) in
  let y1 := Z.min (PicoGFX.height self) (y + h) in
  (((x1 <= x0 \/ y1 <= y0)
    /\ PicoGFX.safe_fill_rect self x y w h colour = [])
   \/ ((x0 < x1 /\ y0 < y1)
       /\ PicoGFX.safe_fill_rect self x y w h colour
          = ILI9341.fill_rect (PicoGFX.tft self) x0 y0 (x1 - x0) (y1 - y0)
              colour
       /\ fill_rect_drawn x0 y0 (x1 - x0) (y1 - y0) colour
            (PicoGFX.safe_fill_rect self x y w h colour)
       /\ (0 <= x0 /\ x0 <= x0 + (x1 - x0) - 1 < PicoGFX.width self)
       /\ (0 <= y0 /\ y0 <= y0 + (y1 - y0) - 1 < PicoGFX.height self)))
  /\ PicoGFX.safe_fill_rect (PicoGFX.init ILI9341.default) (-5) 0 10 10 colour
     = ILI9341.fill_rect ILI9341.default 0 0 5 10 colour
  /\ fill_rect_drawn 0 0 5 10 colour
       (PicoGFX.safe_fill_rect (PicoGFX.init ILI9341.default) (-5) 0 10 10 colour).
Proof.
  intros [Hw Hh] x0 y0 x1 y1.
  assert (Hgen :
    (x0 < x1 /\ y0 < y1) ->
    PicoGFX.safe_fill_rect self x y w h colour
    = ILI9341.fill_rect (PicoGFX.tft self) x0 y0 (x1 - x0) (y1 - y0) colour).
  { intros [Hx Hy]. unfold PicoGFX.safe_fill_rect, PicoGFX.fill_rect.
    fold x0 y0 x1 y1.
    rewrite (proj2 (Z.leb_gt w 0)), (proj2 (Z.leb_gt h 0)) by lia. simpl.
    by rewrite (proj2 (Z.leb_gt (x1 - x0) 0)),
               (proj2 (Z.leb_gt (y1 - y0) 0)) by lia. }
  assert (Hdef :
    PicoGFX.safe_fill_rect (PicoGFX.init ILI9341.default) (-5) 0 10 10 colour
    = ILI9341.fill_rect ILI9341.default 0 0 5 10 colour) by reflexivity.
  split; [|split; [exact Hdef | rewrite Hdef; by apply fill_rect_inside]].
  destruct (Z_lt_le_dec x0 x1) as [Hx|Hx];
    [destruct (Z_lt_le_dec y0 y1) as [Hy|Hy]|].
  - right. rewrite Hgen by done. repeat split; try lia.
    apply fill_rect_inside; lia.
  - left. split; [lia|]. unfold PicoGFX.safe_fill_rect. fold x0 y0 x1 y1.
    destruct (_ || _); [done|].
    rewrite (proj2 (Z.leb_le (y1 - y0) 0)) by lia.
    by rewrite orb_true_r.
  - left. split; [lia|]. unfold PicoGFX.safe_fill_rect. fold x0 y0 x1 y1.
    destruct (_ || _); [done|].
    by rewrite (proj2 (Z.leb_le (x1 - x0) 0)) by lia.
Qed.

Lemma safe_fill_rect_clipped_witness :
  dims_ok (PicoGFX.init ILI9341.default)
  /\ PicoGFX.safe_fill_rect (PicoGFX.init ILI9341.default) 230 (-3) 40 7 0xF800
     = ILI9341.fill_rect ILI9341.default 230 0 10 4 0xF800.
Proof.
  split; [apply init_dims_ok|].
  destruct (safe_fill_rect_clipped (PicoGFX.init ILI9341.default)
              230 (-3) 40 7 0xF800 (init_dims_ok _))
    as [[[Hempty _] | (_ & Heq & _)] _].
  - vm_compute in Hempty. destruct Hempty as [Hc|Hc]; by destruct Hc.
  - exact Heq.
Defined.

(** ** C8: text measurement *)

(** C8. For every text and scale, [get_text_size] returns
    [(8 * len(text) * scale, 8 * scale)] with a scale below 1 taken as 1; for
    the text HIT at scale 2 that is [(48, 16)]. *)
Theorem get_text_size_spec (text : string) (scale : Z) :
  PicoGFX.get_text_size text scale
  = (8 * len text * Z.max 1 scale, 8 * Z.max 1 scale)
  /\ PicoGFX.get_text_size "HIT" 2 = (48, 16).
Proof.
  unfold PicoGFX.get_text_size. split; [|reflexivity].
  destruct (scale <? 1) eqn:E;
    [apply Z.ltb_lt in E | apply Z.ltb_ge in E]; f_equal; f_equal; lia.
Qed.

(** ** The engine loop *)

Section EngineFacts.

Variable ticks_diff : Z -> Z -> Z.
Context {G : Type} (game : Engine.Game G).

Local Abbreviation tick := (Engine.tick ticks_diff game).
Local Abbreviation dispatch := (Engine._dispatch_input_events game).

(** Events of button dispatch. *)
Definition is_dispatch (e : Engine.event) : bool :=
  match e with Engine.EvOnPressed _ => true | _ => false end.

(** The event of an optional member, if the game has it; and its effect. *)
Definition opt_event (h : option (G -> G)) (ev : Engine.event)
    : list Engine.event :=
  match h with Some _ => [ev] | None => [] end.

Definition opt_apply (h : option (G -> G)) (g : G) : G :=
  match h with Some f => f g | None => g end.

Lemma call_if_spec (c : bool) h ev (st : G * list Engine.event) :
  Engine.call_if c h ev st
  = if c then (opt_apply h st.1, st.2 ++ opt_event h ev) else st.
Proof.
  unfold Engine.call_if. destruct c, h, st; simpl; try done.
  by rewrite app_nil_r.
Qed.

(** The double-tap condition in the spec's words: an up press edge (raw up
    now, and not on the previous pass) while a candidate is recorded that
    is at most the threshold old. *)
Definition spec_double_tap (self : Engine.t) (i : Engine.tick_input) : bool :=
  (Engine.up (Engine.raw_input self (Engine.tick_sample i))
   && negb (Engine.up (Engine._current_input self)))
  && match Engine._last_up_press_time self with
     | Some candidate =>
         ticks_diff (Engine.tick_now i) candidate
         <=? Engine._double_tap_threshold_ms self
     | None => false
     end.

(** The engine after a pass that was not a double tap. *)
Definition after_plain_pass (self : Engine.t) (i : Engine.tick_input)
    : Engine.t :=
  let self' := Engine._update_input self (Engine.tick_sample i) in
  if Engine.up_pressed (Engine._current_input self')
  then Engine.set_last_up_press_time (Some (Engine.tick_now i)) self'
  else self'.

Lemma tick_double_tap (i : Engine.tick_input) (w : Engine.loop_state) :
  spec_double_tap (Engine.eng w) i = true ->
  let self := Engine._update_input (Engine.eng w) (Engine.tick_sample i) in
  let d := dispatch self (Engine.gst w) in
  tick i w
  = (Engine.mkLoop (Engine.set_last_up_press_time None self)
       (opt_apply (Engine.reset game) d.1) (Engine.tick_now i)
       (Engine.first_frame w),
     d.2 ++ opt_event (Engine.reset game) Engine.EvReset).
Proof.
  unfold spec_double_tap. intros Hc. cbv zeta.
  apply andb_true_iff in Hc as [Hedge Hc].
  unfold Engine.tick. cbn [Engine._update_input Engine.set_inputs
    Engine._current_input Engine.up_pressed Engine._last_up_press_time
    Engine._double_tap_threshold_ms].
  rewrite Hedge.
  destruct (Engine._last_up_press_time (Engine.eng w)); [|done].
  rewrite Hc. by rewrite call_if_spec.
Qed.

Lemma tick_plain (i : Engine.tick_input) (w : Engine.loop_state) :
  spec_double_tap (Engine.eng w) i = false ->
  let self := Engine._update_input (Engine.eng w) (Engine.tick_sample i) in
  tick i w
  = Engine.update_draw_pace ticks_diff game i
      (ticks_diff (Engine.tick_now i) (Engine.last_time w))
      (Engine.first_frame w) (after_plain_pass (Engine.eng w) i)
      (dispatch self (Engine.gst w)).
Proof.
  unfold spec_double_tap, after_plain_pass. intros Hc. cbv zeta.
  unfold Engine.tick. cbn [Engine._update_input Engine.set_inputs
    Engine._current_input Engine.up_pressed Engine._last_up_press_time
    Engine._double_tap_threshold_ms] in *.
  destruct (Engine.up _ && negb _); [|done]. simpl in Hc.
  destruct (Engine._last_up_press_time (Engine.eng w)); [|done].
  by rewrite Hc.
Qed.

Lemma update_draw_pace_shape i dt ff self (st : G * list Engine.event) :
  exists g rest,
    Engine.update_draw_pace ticks_diff game i dt ff self st
    = (Engine.mkLoop self g (Engine.tick_now i) false,
       st.2 ++ Engine.EvUpdate dt (Engine._current_input self) :: rest)
    /\ existsb Engine.is_reset rest = false
    /\ existsb is_dispatch rest = false.
Proof.
  unfold Engine.update_draw_pace. destruct st as [g tr].
  destruct (Engine.should_redraw game) as [f|];
    [destruct (f _ || ff)|]; destruct (_ >? 0);
    rewrite <- ?app_assoc; simpl; by eexists _, _.
Qed.

Lemma dispatch_only_pressed self g :
  forallb is_dispatch (dispatch self g).2 = true.
Proof.
  assert (Hstep : forall c h b (st : G * list Engine.event),
            forallb is_dispatch st.2 = true ->
            forallb is_dispatch
              (Engine.call_if c h (Engine.EvOnPressed b) st).2 = true).
  { intros c h b st Hst. rewrite call_if_spec.
    destruct c; [|done]. simpl. rewrite forallb_app, Hst.
    by destruct h. }
  unfold Engine._dispatch_input_events. by do 6 apply Hstep.
Qed.

Lemma call_if_trace (c : bool) h ev (st : G * list Engine.event) :
  (Engine.call_if c h ev st).2 = st.2 ++ (if c then opt_event h ev else []).
Proof. rewrite call_if_spec. destruct c; [done|]. by rewrite app_nil_r. Qed.

(** With an up press edge, the dispatch calls [on_up_pressed] first (when
    the game has it), then only handlers of other buttons. *)
Lemma dispatch_up_first self g :
  Engine.up_pressed (Engine._current_input self) = true ->
  exists others,
    (dispatch self g).2
    = opt_event (Engine.on_up_pressed game) (Engine.EvOnPressed Engine.Up)
      ++ others
    /\ forallb (fun e => is_dispatch e
                         && negb (Engine.is_on_pressed Engine.Up e))
         others = true.
Proof.
  intros Hup. unfold Engine._dispatch_input_events.
  rewrite !call_if_trace, Hup. cbn [snd app]. rewrite <- !app_assoc.
  eexists. split; [reflexivity|].
  assert (Hone : forall (c : bool) (h : option (G -> G)) (b : Engine.button),
            b <> Engine.Up ->
            forallb (fun e => is_dispatch e
                              && negb (Engine.is_on_pressed Engine.Up e))
              (if c then opt_event h (Engine.EvOnPressed b) else []) = true).
  { intros c h b Hb. destruct c, h, b; try reflexivity; by destruct Hb. }
  rewrite !forallb_app, !Hone by discriminate. reflexivity.
Qed.

Lemma existsb_none_of {A} (p q : A -> bool) (l : list A) :
  (forall x, p x = true -> q x = false) ->
  forallb p l = true -> existsb q l = false.
Proof.
  intros Hpq. induction l as [|x l IH]; simpl; [done|].
  intros [Hx Hl]%andb_true_iff. by rewrite (Hpq x Hx), IH.
Qed.

Lemma tick_eng (i : Engine.tick_input) (w : Engine.loop_state) :
  exists last,
    Engine.eng (tick i w).1
    = Engine.set_last_up_press_time last
        (Engine._update_input (Engine.eng w) (Engine.tick_sample i)).
Proof.
  destruct (spec_double_tap (Engine.eng w) i) eqn:Hc.
  - rewrite tick_double_tap by done. by eexists.
  - rewrite tick_plain by done.
    destruct (update_draw_pace_shape i
                (ticks_diff (Engine.tick_now i) (Engine.last_time w))
                (Engine.first_frame w) (after_plain_pass (Engine.eng w) i)
                (dispatch (Engine._update_input (Engine.eng w)
                             (Engine.tick_sample i)) (Engine.gst w)))
      as (g & rest & -> & _). simpl. unfold after_plain_pass.
    destruct (Engine.up_pressed _); [by eexists|].
    exists (Engine._last_up_press_time (Engine.eng w)).
    by destruct (Engine.eng w).
Qed.

(** The engine keeps its provider, its running flag and its threshold over
    a pass. *)
Lemma tick_keeps (i : Engine.tick_input) (w : Engine.loop_state) :
  Engine.has_input_provider (Engine.eng (tick i w).1)
  = Engine.has_input_provider (Engine.eng w)
  /\ Engine._running (Engine.eng (tick i w).1) = Engine._running (Engine.eng w)
  /\ Engine._double_tap_threshold_ms (Engine.eng (tick i w).1)
     = Engine._double_tap_threshold_ms (Engine.eng w)
  /\ Engine._current_input (Engine.eng (tick i w).1)
     = Engine._current_input
         (Engine._update_input (Engine.eng w) (Engine.tick_sample i)).
Proof. destruct (tick_eng i w) as [last ->]. done. Qed.

(** ** C1: edge detection *)

(** The pressed flags of a sequence of raw levels, in the spec's words:
    the current raw level and not the raw level of the previous tick. *)
Fixpoint spec_edges (previous : bool) (raw : list bool) : list bool :=
  match raw with
  | [] => []
  | r :: raw' => (r && negb previous) :: spec_edges r raw'
  end.

Lemma run_snapshots_edges (b : Engine.button) (ins : list Engine.tick_input) :
  forall w : Engine.loop_state,
    Engine._running (Engine.eng w) = true ->
    Engine.pressed b <$> Engine.run_snapshots ticks_diff game ins w
    = spec_edges (Engine.level b (Engine._current_input (Engine.eng w)))
        ((fun i => Engine.level b
                     (Engine.raw_input (Engine.eng w) (Engine.tick_sample i)))
           <$> ins).
Proof.
  induction ins as [|i ins IH]; intros w Hrun; [done|].
  simpl. rewrite Hrun. simpl.
  destruct (tick_keeps i w) as (Hprov & Hrun' & _ & Hcur).
  rewrite IH by congruence. rewrite Hcur.
  assert (Hlevel : Engine.level b (Engine._current_input
                     (Engine._update_input (Engine.eng w) (Engine.tick_sample i)))
                   = Engine.level b (Engine.raw_input (Engine.eng w)
                                       (Engine.tick_sample i)))
    by (by destruct b).
  assert (Hpressed : Engine.pressed b (Engine._current_input
                       (Engine._update_input (Engine.eng w) (Engine.tick_sample i)))
                     = Engine.level b (Engine.raw_input (Engine.eng w)
                                         (Engine.tick_sample i))
                       && negb (Engine.level b (Engine._current_input (Engine.eng w))))
    by (by destruct b).
  rewrite Hlevel, Hpressed. unfold Engine.raw_input. by rewrite Hprov.
Qed.

End EngineFacts.

(** A sample as [read_input_state] builds it, with one button at a given
    level and the others released. *)
Definition sample_with (b : Engine.button) (v : bool) : Engine.InputState :=
  match b with
  | Engine.Up => Engine.mkInputState v false false false false false false false false false false false
  | Engine.Down => Engine.mkInputState false v false false false false false false false false false false
  | Engine.Left => Engine.mkInputState false false v false false false false false false false false false
  | Engine.Right => Engine.mkInputState false false false v false false false false false false false false
  | Engine.A => Engine.mkInputState false false false false v false false false false false false false
  | Engine.B => Engine.mkInputState false false false false false v false false false false false false
  end.

(** C1. On every pass of the loop and for each of the six buttons, the
    pressed flag left by [_update_input] is the current raw level and not the
    raw level of the previous pass (the level in [_current_input] before the
    call; all released for a new engine); so over a run the pressed flags of
    a button are those of its raw levels, and raw levels
    [F, T, T, F, T] over five passes give pressed at passes 2 and 5 only. *)
Theorem pressed_is_rising_edge :
  (forall (self : Engine.t) (sample : Engine.InputState) (b : Engine.button),
      let self' := Engine._update_input self sample in
      Engine.level b (Engine._current_input self')
      = Engine.level b (Engine.raw_input self sample)
      /\ Engine.pressed b (Engine._current_input self')
         = Engine.level b (Engine.raw_input self sample)
           && negb (Engine.level b (Engine._current_input self))
      /\ Engine._prev_input self' = Engine._current_input self)
  /\ (forall (ticks_diff : Z -> Z -> Z) (G : Type) (game : Engine.Game G)
        (self : Engine.t) (g : G) (start : Z)
        (ins : list Engine.tick_input) (b : Engine.button),
        Engine.pressed b
          <$> Engine.run_snapshots ticks_diff game ins
                (Engine.run_entry self g start)
        = spec_edges (Engine.level b (Engine._current_input self))
            ((fun i => Engine.level b
                         (Engine.raw_input self (Engine.tick_sample i)))
               <$> ins))
  /\ (forall (ticks_diff : Z -> Z -> Z) (G : Type) (game : Engine.Game G)
        (g : G) (budget start : Z) (now finish : nat -> Z)
        (b : Engine.button),
        Engine.pressed b
          <$> Engine.run_snapshots ticks_diff game
                (imap (fun k v => Engine.mkTick (now k) (sample_with b v)
                                    (finish k))
                      [false; true; true; false; true])
                (Engine.run_entry (Engine.init budget true) g start)
        = [false; true; false; false; true]).
Proof.
  split; [|split].
  - intros self sample b. by destruct b.
  - intros. by rewrite run_snapshots_edges.
  - intros. rewrite run_snapshots_edges by done. by destruct b.
Qed.

(** ** C2: double-tap recognition *)


(** ** C10: dispatch comes before the gesture check *)

(** C10. Every pass starts with the button dispatch, whatever the gesture
    check decides.  On a pass on which the double tap fires, the calls are
    exactly: [on_up_pressed] if the game has it, then handlers of other
    buttons, then [reset] if the game has it -- no update, draw or sleep --
    and the game is left as [reset] leaves what the handlers left. *)
Theorem dispatch_precedes_reset (ticks_diff : Z -> Z -> Z) (G : Type)
    (game : Engine.Game G) (i : Engine.tick_input) (w : Engine.loop_state) :
  let r := Engine.tick ticks_diff game i w in
  let d := Engine._dispatch_input_events game
             (Engine._update_input (Engine.eng w) (Engine.tick_sample i))
             (Engine.gst w) in
  (exists rest, r.2 = d.2 ++ rest /\ existsb is_dispatch rest = false)
  /\ (if spec_double_tap ticks_diff (Engine.eng w) i then
        exists others,
          r.2 = opt_event (Engine.on_up_pressed game)
                  (Engine.EvOnPressed Engine.Up)
                ++ others
                ++ opt_event (Engine.reset game) Engine.EvReset
          /\ d.2 = opt_event (Engine.on_up_pressed game)
                     (Engine.EvOnPressed Engine.Up) ++ others
          /\ forallb (fun e => is_dispatch e
                               && negb (Engine.is_on_pressed Engine.Up e))
               others = true
          /\ Engine.gst r.1 = opt_apply (Engine.reset game) d.1
      else True).
Proof.
  cbv zeta. split.
  - destruct (spec_double_tap ticks_diff (Engine.eng w) i) eqn:Hc.
    + rewrite tick_double_tap by done. simpl. eexists. split; [done|].
      by destruct (Engine.reset game).
    + rewrite tick_plain by done.
      destruct (update_draw_pace_shape ticks_diff game i
                  (ticks_diff (Engine.tick_now i) (Engine.last_time w))
                  (Engine.first_frame w) (after_plain_pass (Engine.eng w) i)
                  (Engine._dispatch_input_events game
                     (Engine._update_input (Engine.eng w) (Engine.tick_sample i))
                     (Engine.gst w)))
        as (g & rest & -> & _ & Hrest).
      simpl. eexists. split; [done|]. done.
  - destruct (spec_double_tap ticks_diff (Engine.eng w) i) eqn:Hc; [|done].
    rewrite tick_double_tap by done. simpl.
    unfold spec_double_tap in Hc.
    apply andb_true_iff in Hc as [Hedge _].
    destruct (dispatch_up_first game
                (Engine._update_input (Engine.eng w) (Engine.tick_sample i))
                (Engine.gst w) Hedge) as (others & Hd & Hothers).
    exists others. rewrite Hd at 1 2. by rewrite <- app_assoc.
Qed.

(** ** Loops over byte buffers *)

(** A loop whose body keeps an invariant indexed by the number of passes
    made runs to its end and establishes the invariant there. *)
Lemma for_each_invariant {A St : Type} (xs : list A)
    (body : A -> St -> option St) :
  forall (P : nat -> St -> Prop) (s : St),
    P 0%nat s ->
    (forall (k : nat) (x : A) (s : St),
        xs !! k = Some x -> P k s ->
        exists s', body x s = Some s' /\ P (S k) s') ->
    exists s', for_each xs body s = Some s' /\ P (length xs) s'.
Proof.
  induction xs as [|x xs IH]; intros P s H0 Hstep; simpl.
  - by exists s.
  - destruct (Hstep 0%nat x s eq_refl H0) as (s1 & -> & H1). simpl.
    apply (IH (fun k => P (S k))); [done|].
    intros k y s2 Hk. by apply (Hstep (S k)).
Qed.

Lemma py_range_lookup (n : Z) (k : nat) (x : Z) :
  py_range n !! k = Some x -> x = Z.of_nat k /\ Z.of_nat k < n.
Proof. unfold py_range. intros [-> ?]%lookup_seqZ. lia. Qed.

Lemma py_range_length (n : Z) : length (py_range n) = Z.to_nat n.
Proof. apply length_seqZ. Qed.

Lemma py_range_step2_lookup (n : Z) (k : nat) (x : Z) :
  py_range_step2 n !! k = Some x ->
  x = 2 * Z.of_nat k /\ Z.of_nat k < (n + 1) / 2.
Proof.
  unfold py_range_step2. rewrite list_lookup_fmap.
  destruct (seqZ 0 ((n + 1) / 2) !! k) as [y|] eqn:Hy; [|done].
  apply lookup_seqZ in Hy as [-> ?]. intros [= <-]. lia.
Qed.

Lemma py_range_step2_length (n : Z) :
  length (py_range_step2 n) = Z.to_nat ((n + 1) / 2).
Proof. unfold py_range_step2. by rewrite length_fmap, length_seqZ. Qed.

Lemma py_index_in (n : nat) (i : Z) :
  0 <= i < Z.of_nat n -> py_index n i = Some (Z.to_nat i).
Proof.
  intros Hi. unfold py_index.
  by rewrite (proj2 (Z.leb_le 0 i)), (proj2 (Z.ltb_lt i _)) by lia.
Qed.

Lemma setitem_in (buf : list Z) (i v : Z) :
  0 <= i < Z.of_nat (length buf) ->
  setitem buf i v = Some (<[Z.to_nat i := v]> buf).
Proof. intros Hi. unfold setitem. by rewrite py_index_in. Qed.

Lemma getitem_in (buf : list Z) (i : Z) :
  0 <= i < Z.of_nat (length buf) -> getitem buf i = buf !! Z.to_nat i.
Proof. intros Hi. unfold getitem. by rewrite py_index_in. Qed.

Lemma getitem_is_Some (buf : list Z) (i : Z) :
  0 <= i < Z.of_nat (length buf) -> is_Some (getitem buf i).
Proof.
  intros Hi. rewrite getitem_in by done. apply lookup_lt_is_Some. lia.
Qed.

(** Reading after a store, both in range. *)
Lemma getitem_insert (buf : list Z) (i j v : Z) :
  0 <= i < Z.of_nat (length buf) -> 0 <= j < Z.of_nat (length buf) ->
  getitem (<[Z.to_nat i := v]> buf) j
  = if j =? i then Some v else getitem buf j.
Proof.
  intros Hi Hj. rewrite !getitem_in by (rewrite ?length_insert; lia).
  destruct (j =? i) eqn:E.
  - apply Z.eqb_eq in E as ->. apply list_lookup_insert_eq. lia.
  - apply Z.eqb_neq in E. apply list_lookup_insert_ne. lia.
Qed.

(** ** The background fill *)

Lemma fill_background (hi lo : Z) (m : nat) :
  for_each (py_range_step2 (Z.of_nat (length (replicate (2 * m) 0))))
    (fun i buf => buf ← setitem buf i hi; setitem buf (i + 1) lo)
    (replicate (2 * m) 0)
  = Some (mjoin (replicate m [hi; lo])).
Proof.
  rewrite length_replicate.
  destruct (for_each_invariant
              (py_range_step2 (Z.of_nat (2 * m)))
              (fun i buf => buf ← setitem buf i hi; setitem buf (i + 1) lo)
              (fun k buf => (k <= m)%nat /\
                 buf = mjoin (replicate k [hi; lo])
                       ++ replicate (2 * (m - k)) 0)
              (replicate (2 * m) 0)) as (buf & Hrun & _ & Hbuf).
  - split; [lia|]. simpl. f_equal. lia.
  - intros k x buf [-> Hk]%py_range_step2_lookup [_ ->].
    assert (Hkm : (k < m)%nat)
      by (apply Nat2Z.inj_lt; Z.div_mod_to_equations; lia).
    assert (Hlen : length (mjoin (replicate k [hi; lo])) = (2 * k)%nat).
    { clear. induction k as [|k IH]; [done|]. simpl. rewrite IH. lia. }
    replace (2 * (m - k))%nat with (S (S (2 * (m - S k)))) by lia.
    rewrite setitem_in
      by (rewrite length_app, Hlen; simpl; rewrite length_replicate; lia).
    simpl. rewrite setitem_in
      by (rewrite length_insert, length_app, Hlen; simpl;
          rewrite length_replicate; lia).
    eexists. split; [done|]. split; [lia|].
    replace (Z.to_nat (2 * Z.of_nat k)) with (length (mjoin (replicate k [hi; lo])) + 0)%nat
      by (rewrite Hlen; lia).
    rewrite insert_app_r. simpl.
    replace (Z.to_nat (2 * Z.of_nat k + 1)) with (length (mjoin (replicate k [hi; lo])) + 1)%nat
      by (rewrite Hlen; lia).
    rewrite insert_app_r. simpl.
    transitivity ((mjoin (replicate k [hi; lo]) ++ [hi; lo])
                  ++ replicate (2 * (m - S k)) 0);
      [by rewrite <- app_assoc|].
    change [hi; lo] with (mjoin (replicate 1 [hi; lo])) at 2.
    rewrite join_colour_pairs_add. by replace (k + 1)%nat with (S k) by lia.
  - rewrite Hrun. f_equal. rewrite Hbuf, py_range_step2_length.
    replace (Z.to_nat ((Z.of_nat (2 * m) + 1) / 2)) with m
      by (Z.div_mod_to_equations; lia).
    replace (2 * (m - m))%nat with 0%nat by lia. by rewrite app_nil_r.
Qed.

(** ** The 1x text buffer *)

(** The 1x buffer of a text: every pixel of the [8 * len(text)] by 8 cell
    set to the two bytes [hi], [lo], then the glyphs drawn over it. *)
Definition base_buffer `{FrameBuffer} (text : string) (colour hi lo : Z)
    : list Z :=
  fb_text (mjoin (replicate (Z.to_nat (64 * len text)) [hi; lo]))
    (8 * len text) 8 text colour.

Lemma len_nonneg (text : string) : 0 <= len text.
Proof. unfold len. lia. Qed.

Lemma bytearray_cell (text : string) :
  bytearray (8 * len text * 8 * 2)
  = replicate (2 * Z.to_nat (64 * len text)) 0.
Proof. unfold bytearray. f_equal. pose proof (len_nonneg text). lia. Qed.

Lemma colour_pairs_length (hi lo : Z) (k : nat) :
  length (mjoin (replicate k [hi; lo])) = (2 * k)%nat.
Proof. induction k as [|k IH]; [done|]. simpl. rewrite IH. lia. Qed.

Lemma base_buffer_length `{FrameBuffer} (text : string) (colour hi lo : Z) :
  Z.of_nat (length (base_buffer text colour hi lo)) = 2 * (8 * len text) * 8.
Proof.
  unfold base_buffer. rewrite fb_text_length, colour_pairs_length.
  pose proof (len_nonneg text). lia.
Qed.

Lemma render_base_total `{FrameBuffer} (text : string) (colour : Z)
    (bg : option Z) :
  PicoGFX.render_base text colour bg
  = Some (match bg with
          | None => base_buffer text colour 0 0
          | Some bg =>
              base_buffer text colour (ILI9341.hi8 bg) (ILI9341.lo8 bg)
          end).
Proof.
  unfold PicoGFX.render_base. rewrite bytearray_cell.
  destruct bg as [bg|]; by rewrite fill_background.
Qed.

Lemma driver_text_total `{FrameBuffer} (x y : Z) (text : string)
    (colour bg : Z) :
  py_not text = false ->
  ILI9341.text x y text colour bg
  = Some (ILI9341.blit_rgb565 x y (8 * len text) 8
            (base_buffer text colour (ILI9341.hi8 bg) (ILI9341.lo8 bg))).
Proof.
  intros Hne. unfold ILI9341.text. rewrite Hne, bytearray_cell.
  by rewrite fill_background.
Qed.

(** ** The nearest-neighbour copy *)

(** The two bytes of the pixel at column [x], row [y] of a row-major
    buffer, [w] pixels wide, two bytes a pixel. *)
Definition pixel_at (buf : list Z) (w x y : Z) : option (Z * Z) :=
  b0 ← getitem buf (2 * (y * w + x));
  b1 ← getitem buf (2 * (y * w + x) + 1);
  Some (b0, b1).

Section ScaleUp.

Variables (small_buf : list Z) (base_w base_h scale : Z).
Hypothesis Hbw : 0 <= base_w.
Hypothesis Hbh : 0 <= base_h.
Hypothesis Hscale : 1 <= scale.
Hypothesis Hsmall : Z.of_nat (length small_buf) = 2 * base_w * base_h.

Let out_w : Z := base_w * scale.
Let out_h : Z := base_h * scale.

(** Destination pixels up to row [sy], column [sx] (row-major order) hold
    the bytes of their source pixels. *)
Definition copied_upto (sy sx : Z) (out_buf : list Z) : Prop :=
  Z.of_nat (length out_buf) = 2 * out_w * out_h
  /\ forall dy dx : Z,
       0 <= dy -> 0 <= dx < out_w ->
       dy < sy \/ (dy = sy /\ dx < sx) ->
       getitem out_buf (2 * (dy * out_w + dx))
       = getitem small_buf (2 * (dy / scale * base_w + dx / scale))
       /\ getitem out_buf (2 * (dy * out_w + dx) + 1)
          = getitem small_buf (2 * (dy / scale * base_w + dx / scale) + 1).

Lemma source_in_range (dy dx : Z) :
  0 <= dy < out_h -> 0 <= dx < out_w ->
  0 <= 2 * (dy / scale * base_w + dx / scale)
  /\ 2 * (dy / scale * base_w + dx / scale) + 1
     < Z.of_nat (length small_buf).
Proof.
  subst out_w out_h. intros Hy Hx. rewrite Hsmall.
  assert (0 <= dy / scale < base_h)
    by (split; [apply Z.div_pos; lia | apply Z.div_lt_upper_bound; nia]).
  assert (0 <= dx / scale < base_w)
    by (split; [apply Z.div_pos; lia | apply Z.div_lt_upper_bound; nia]).
  nia.
Qed.

Lemma dest_in_range (dy dx : Z) :
  0 <= dy < out_h -> 0 <= dx < out_w ->
  0 <= 2 * (dy * out_w + dx) /\ 2 * (dy * out_w + dx) + 1 < 2 * out_w * out_h.
Proof. intros Hy Hx. nia. Qed.

Lemma dest_distinct (dy dx sy sx : Z) :
  0 <= dy -> 0 <= dx < out_w -> 0 <= sx < out_w ->
  dy < sy \/ (dy = sy /\ dx < sx) ->
  dy * out_w + dx < sy * out_w + sx.
Proof. intros Hy Hx Hs [Hlt | [-> Hlt]]; nia. Qed.

Lemma scale_up_row (sy : Z) (out_buf : list Z) :
  0 <= sy < out_h ->
  copied_upto sy 0 out_buf ->
  exists out_buf',
    for_each (py_range out_w)
      (fun sx out_buf =>
         let src_x := sx / scale in
         let src_index := 2 * (sy / scale * base_w + src_x) in
         let dst_index := 2 * (sy * out_w + sx) in
         v ← getitem small_buf src_index;
         out_buf ← setitem out_buf dst_index v;
         v ← getitem small_buf (src_index + 1);
         setitem out_buf (dst_index + 1) v)
      out_buf = Some out_buf'
    /\ copied_upto (sy + 1) 0 out_buf'.
Proof.
  intros Hsy Hinv.
  match goal with
  | |- exists _, for_each ?xs ?body ?s = _ /\ _ =>
      destruct (for_each_invariant xs body
                  (fun k buf => copied_upto sy (Z.of_nat k) buf) s)
        as (out' & Hrun & Hfin);
      [ | | exists out'; split; [exact Hrun|] ]
  end.
  - exact Hinv.
  - intros k sx buf [-> Hk]%py_range_lookup [Hlen Hcopied]. cbv zeta.
    assert (Hsx : 0 <= Z.of_nat k < out_w) by lia.
    destruct (source_in_range sy (Z.of_nat k) Hsy Hsx) as [Hs0 Hs1].
    destruct (dest_in_range sy (Z.of_nat k) Hsy Hsx) as [Hd0 Hd1].
    destruct (getitem_is_Some small_buf
                (2 * (sy / scale * base_w + Z.of_nat k / scale)))
      as [v0 Hv0]; [lia|].
    destruct (getitem_is_Some small_buf
                (2 * (sy / scale * base_w + Z.of_nat k / scale) + 1))
      as [v1 Hv1]; [lia|].
    rewrite Hv0. simpl. rewrite setitem_in by lia. simpl.
    rewrite Hv1. simpl. rewrite setitem_in by (rewrite length_insert; lia).
    eexists. split; [reflexivity|].
    split; [by rewrite !length_insert|].
    intros dy dx Hdy Hdx Hbefore.
    assert (Hcase : (dy < sy \/ (dy = sy /\ dx < Z.of_nat k))
                    \/ (dy = sy /\ dx = Z.of_nat k)) by lia.
    assert (Hdy' : 0 <= dy < out_h) by lia.
    destruct (dest_in_range dy dx Hdy' Hdx) as [He0 He1].
    rewrite !getitem_insert by (rewrite ?length_insert; lia).
    destruct Hcase as [Hold | [-> ->]].
    + pose proof (dest_distinct dy dx sy (Z.of_nat k) Hdy Hdx Hsx Hold).
      rewrite !(proj2 (Z.eqb_neq _ _)) by lia. by apply Hcopied.
    + rewrite Z.eqb_refl, (proj2 (Z.eqb_neq _ _)) by lia.
      rewrite Z.eqb_refl. by rewrite Hv0, Hv1.
  - rewrite py_range_length in Hfin. destruct Hfin as [Hlen Hcopied].
    split; [done|]. intros dy dx Hdy Hdx Hbefore.
    apply Hcopied; [done|done|]. lia.
Qed.

Lemma scale_up_total :
  exists out_buf,
    PicoGFX.scale_up small_buf base_w base_h scale = Some out_buf
    /\ copied_upto out_h 0 out_buf.
Proof.
  unfold PicoGFX.scale_up. fold out_w out_h.
  match goal with
  | |- exists _, for_each ?xs ?body ?s = _ /\ _ =>
      destruct (for_each_invariant xs body
                  (fun k buf => copied_upto (Z.of_nat k) 0 buf) s)
        as (out' & Hrun & Hfin);
      [ | | exists out'; split; [exact Hrun|] ]
  end.
  - split; [|intros; lia].
    unfold bytearray. rewrite length_replicate. nia.
  - intros k sy buf [-> Hk]%py_range_lookup Hinv.
    destruct (scale_up_row (Z.of_nat k) buf) as (buf' & Hrow & Hinv');
      [lia|done|].
    exists buf'. split; [exact Hrow|].
    by replace (Z.of_nat (S k)) with (Z.of_nat k + 1) by lia.
  - rewrite py_range_length in Hfin.
    by replace (Z.of_nat (Z.to_nat out_h)) with out_h in Hfin by nia.
Qed.

End ScaleUp.

(** ** Text sprites *)

Lemma render_text_sprite_1x `{FrameBuffer} (text : string) (colour : Z)
    (bg : option Z) (scale : Z) (small : list Z) :
  scale <= 1 ->
  PicoGFX.render_base text colour bg = Some small ->
  PicoGFX._render_text_sprite text colour bg scale
  = Some (PicoGFX.mkSprite (8 * len text) 8 small None).
Proof.
  intros Hs Hb. unfold PicoGFX._render_text_sprite. rewrite Hb. simpl.
  destruct (scale <? 1) eqn:E; [done|].
  apply Z.ltb_ge in E. by rewrite (proj2 (Z.eqb_eq scale 1)) by lia.
Qed.

Lemma render_text_sprite_scaled `{FrameBuffer} (text : string) (colour : Z)
    (bg : option Z) (scale : Z) (small : list Z) :
  1 < scale ->
  PicoGFX.render_base text colour bg = Some small ->
  Z.of_nat (length small) = 2 * (8 * len text) * 8 ->
  exists out,
    PicoGFX._render_text_sprite text colour bg scale
    = Some (PicoGFX.mkSprite (8 * len text * scale) (8 * scale) out None)
    /\ copied_upto small (8 * len text) 8 scale (8 * scale) 0 out.
Proof.
  intros Hs Hb Hlen. unfold PicoGFX._render_text_sprite. rewrite Hb. simpl.
  rewrite (proj2 (Z.ltb_ge scale 1)), (proj2 (Z.eqb_neq scale 1)) by lia.
  pose proof (len_nonneg text).
  destruct (scale_up_total small (8 * len text) 8 scale)
    as (out & -> & Hout); [lia..|].
  by exists out.
Qed.

(** C4. For every text, colours and scale [s > 1], the sprite built by
    [_render_text_sprite] is [8*len(text)*s] by [8*s] and its pixel
    [(dx, dy)], for [0 <= dx < 8*len(text)*s] and [0 <= dy < 8*s], holds the
    two bytes of pixel [(dx/s, dy/s)] of the 1x buffer; for a scale of 1 (or
    below, taken as 1) the sprite is the 1x buffer itself. *)
Theorem text_sprite_nearest_neighbour `{FrameBuffer} (text : string)
    (colour : Z) (bg : option Z) (scale : Z) :
  exists small,
    PicoGFX.render_base text colour bg = Some small
    /\ if scale <=? 1 then
         PicoGFX._render_text_sprite text colour bg scale
         = Some (PicoGFX.mkSprite (8 * len text) 8 small None)
       else
         exists out,
           PicoGFX._render_text_sprite text colour bg scale
           = Some (PicoGFX.mkSprite (8 * len text * scale) (8 * scale)
                     out None)
           /\ forall dx dy : Z,
                0 <= dx < 8 * len text * scale -> 0 <= dy < 8 * scale ->
                exists px,
                  pixel_at out (8 * len text * scale) dx dy = Some px
                  /\ pixel_at small (8 * len text) (dx / scale) (dy / scale)
                     = Some px.
Proof.
  rewrite render_base_total. eexists. split; [reflexivity|].
  set (small := match bg with
                | None => base_buffer text colour 0 0
                | Some bg0 => base_buffer text colour (ILI9341.hi8 bg0)
                                (ILI9341.lo8 bg0)
                end).
  assert (Hlen : Z.of_nat (length small) = 2 * (8 * len text) * 8)
    by (subst small; destruct bg; apply base_buffer_length).
  pose proof (len_nonneg text) as Hl.
  destruct (scale <=? 1) eqn:E.
  - apply Z.leb_le in E. apply render_text_sprite_1x; [done|].
    apply render_base_total.
  - apply Z.leb_gt in E.
    destruct (render_text_sprite_scaled text colour bg scale small E
                (render_base_total text colour bg) Hlen)
      as (out & Hout & Hlen' & Hcopy).
    exists out. split; [exact Hout|]. intros dx dy Hdx Hdy.
    destruct (Hcopy dy dx) as [H0 H1]; [lia..|].
    destruct (source_in_range small (8 * len text) 8 scale) with dy dx
      as [Hs0 Hs1]; [lia..|].
    destruct (getitem_is_Some small
                (2 * (dy / scale * (8 * len text) + dx / scale)))
      as [b0 Hb0]; [lia|].
    destruct (getitem_is_Some small
                (2 * (dy / scale * (8 * len text) + dx / scale) + 1))
      as [b1 Hb1]; [lia|].
    exists (b0, b1). unfold pixel_at.
    rewrite H0, H1, Hb0, Hb1. done.
Qed.

Lemma text_sprite_nearest_neighbour_witness :
  exists small out,
    PicoGFX.render_base (H := Framebuf.sample) "A" 0xFFFF (Some 0x001F)
    = Some small
    /\ PicoGFX._render_text_sprite (H := Framebuf.sample) "A" 0xFFFF
         (Some 0x001F) 2
       = Some (PicoGFX.mkSprite 16 16 out None)
    /\ pixel_at out 16 3 5 = pixel_at small 8 1 2.
Proof.
  destruct (text_sprite_nearest_neighbour (H := Framebuf.sample)
              "A" 0xFFFF (Some 0x001F) 2) as (small & Hsmall & Hrest).
  change (2 <=? 1) with false in Hrest. cbv iota in Hrest.
  destruct Hrest as (out & Hout & Hpx).
  exists small, out. split; [exact Hsmall|]. split; [exact Hout|].
  destruct (Hpx 3 5) as (px & Ha & Hb).
  - split; [done|reflexivity].
  - split; [done|reflexivity].
  - change (8 * len "A" * 2) with 16 in Ha.
    change (8 * len "A") with 8 in Hb.
    change (3 / 2) with 1 in Hb. change (5 / 2) with 2 in Hb.
    rewrite Ha, Hb. reflexivity.
Defined.

(** ** The text cache and [draw_text] *)

(** Every cached sprite is the one [_render_text_sprite] builds for its
    key: the cache is only ever written by [_get_text_sprite]. *)
Definition cache_ok `{FrameBuffer} (self : PicoGFX.t) : Prop :=
  forall text colour bg scale spr,
    PicoGFX._text_cache self !! (text, colour, bg, scale) = Some spr ->
    PicoGFX._render_text_sprite text colour bg scale = Some spr.

Lemma init_cache_ok `{FrameBuffer} (tft : ILI9341.t) :
  cache_ok (PicoGFX.init tft).
Proof. intros text colour bg scale spr Hl. simpl in Hl. by rewrite lookup_empty in Hl. Qed.

Lemma render_text_sprite_total `{FrameBuffer} (text : string) (colour : Z)
    (bg : option Z) (scale : Z) :
  exists data,
    PicoGFX._render_text_sprite text colour bg scale
    = Some (PicoGFX.mkSprite (PicoGFX.get_text_size text scale).1
              (PicoGFX.get_text_size text scale).2 data None)
    /\ (scale <= 1 ->
        data = match bg with
               | None => base_buffer text colour 0 0
               | Some bg => base_buffer text colour (ILI9341.hi8 bg)
                              (ILI9341.lo8 bg)
               end).
Proof.
  pose proof (render_base_total text colour bg) as Hsmall.
  unfold PicoGFX.get_text_size. simpl.
  destruct (Z_le_gt_dec scale 1) as [E|E].
  - rewrite (render_text_sprite_1x text colour bg scale _ E Hsmall).
    assert (Hs' : (if scale <? 1 then 1 else scale) = 1)
      by (destruct (scale <? 1) eqn:E';
          [done | apply Z.ltb_ge in E'; lia]).
    rewrite Hs', Z.mul_1_r. by eexists.
  - destruct (render_text_sprite_scaled text colour bg scale _ ltac:(lia)
                Hsmall) as (out & -> & _).
    { destruct bg; apply base_buffer_length. }
    rewrite (proj2 (Z.ltb_ge scale 1)) by lia.
    exists out. split; [done|lia].
Qed.

Lemma get_text_sprite_total `{FrameBuffer} (self : PicoGFX.t)
    (text : string) (colour : Z) (bg : option Z) (scale : Z) :
  cache_ok self ->
  exists self' spr,
    PicoGFX._get_text_sprite self text colour bg scale = Some (self', spr)
    /\ PicoGFX._render_text_sprite text colour bg scale = Some spr
    /\ cache_ok self'
    /\ PicoGFX.tft self' = PicoGFX.tft self
    /\ PicoGFX.width self' = PicoGFX.width self
    /\ PicoGFX.height self' = PicoGFX.height self.
Proof.
  intros Hok. unfold PicoGFX._get_text_sprite.
  destruct (PicoGFX._text_cache self !! (text, colour, bg, scale))
    as [spr|] eqn:Hl.
  - exists self, spr. repeat split; try done. by apply Hok.
  - destruct (render_text_sprite_total text colour bg scale)
      as (data & Hr & _).
    rewrite Hr. simpl. eexists _, _. repeat split; try done.
    intros t c b s spr. simpl.
    destruct (decide ((text, colour, bg, scale) = (t, c, b, s))) as [Heq|Hne].
    + injection Heq as <- <- <- <-. rewrite lookup_insert_eq.
      intros [= <-]. exact Hr.
    + rewrite lookup_insert_ne by done. apply Hok.
Qed.

(** The fast path of [draw_text]: scale 1 (or below) and no background. *)
Lemma draw_text_fast `{FrameBuffer} (self : PicoGFX.t) (x y : Z)
    (text : string) (colour scale : Z) :
  py_not text = false -> scale <= 1 ->
  let o := PicoGFX.clamp_origin self x y (8 * len text) 8 in
  PicoGFX.draw_text self x y text colour None scale
  = Some (self, ILI9341.blit_rgb565 o.1 o.2 (8 * len text) 8
                  (base_buffer text colour 0 0)).
Proof.
  intros Hne Hs o. unfold PicoGFX.draw_text. rewrite Hne. cbv zeta.
  assert (Hs' : (if scale <? 1 then 1 else scale) = 1)
    by (destruct (scale <? 1) eqn:E'; [done | apply Z.ltb_ge in E'; lia]).
  rewrite Hs'. unfold PicoGFX.get_text_size. simpl.
  rewrite Z.mul_1_r. subst o.
  destruct (PicoGFX.clamp_origin self x y (8 * len text) 8) as [x' y'].
  by rewrite driver_text_total.
Qed.

(** What [draw_text] does for a non-empty text: one blit of a sprite of
    the measured size at the clamped position. *)
Lemma draw_text_blits `{FrameBuffer} (self : PicoGFX.t) (x y : Z)
    (text : string) (colour : Z) (bg : option Z) (scale : Z) :
  py_not text = false -> cache_ok self ->
  let sz := PicoGFX.get_text_size text scale in
  let o := PicoGFX.clamp_origin self x y sz.1 sz.2 in
  exists self' data,
    PicoGFX.draw_text self x y text colour bg scale
    = Some (self', ILI9341.blit_rgb565 o.1 o.2 sz.1 sz.2 data)
    /\ cache_ok self'.
Proof.
  intros Hne Hok sz o. unfold PicoGFX.draw_text. rewrite Hne. cbv zeta.
  set (scale' := if scale <? 1 then 1 else scale).
  assert (Hsz : PicoGFX.get_text_size text scale' = sz).
  { subst sz scale'. unfold PicoGFX.get_text_size.
    destruct (scale <? 1) eqn:E; [done|]. by rewrite E. }
  rewrite Hsz. destruct sz as [w h] eqn:Esz.
  simpl in o. destruct (PicoGFX.clamp_origin self x y w h) as [x' y'] eqn:Eo.
  subst o. simpl.
  destruct ((scale' =? 1) && (if bg is None then true else false)) eqn:Efast.
  - apply andb_true_iff in Efast as [E1%Z.eqb_eq Ebg].
    rewrite driver_text_total by done. simpl.
    rewrite E1 in Hsz. unfold PicoGFX.get_text_size in Hsz. simpl in Hsz.
    rewrite Z.mul_1_r in Hsz. injection Hsz as <- <-.
    by eexists self, _.
  - unfold PicoGFX.draw_text_via_sprite.
    destruct (get_text_sprite_total self text colour bg scale' Hok)
      as (self' & spr & -> & Hr & Hok' & _).
    destruct (render_text_sprite_total text colour bg scale')
      as (data & Hr' & _).
    assert (Hspr : spr = PicoGFX.mkSprite w h data None)
      by (rewrite Hsz in Hr'; simpl in Hr'; congruence).
    subst spr. simpl. by exists self', data.
Qed.

(** ** C9: the fast path and the sprite path agree *)

(** C9. For every non-empty text, colour and position, [draw_text] at scale
    1 with no background (the driver's text routine) and the sprite path
    for key [(text, colour, None, 1)] at the same clamped position put the
    same operations on the bus: the window of the [8*len(text)] by 8 cell,
    then the cell's bytes, which are the glyphs drawn in the colour over a
    cell filled with the bytes [0, 0] -- black, not transparency. *)
Theorem fast_text_path_is_sprite_path `{FrameBuffer} (self : PicoGFX.t)
    (x y : Z) (text : string) (colour : Z) :
  py_not text = false -> cache_ok self ->
  let o := PicoGFX.clamp_origin self x y (PicoGFX.get_text_size text 1).1
             (PicoGFX.get_text_size text 1).2 in
  let black_cell := replicate (Z.to_nat (8 * len text * 8 * 2)) 0 in
  let tr := ILI9341._set_window o.1 o.2 (o.1 + 8 * len text - 1) (o.2 + 8 - 1)
            ++ ILI9341._write_data
                 (fb_text black_cell (8 * len text) 8 text colour) in
  PicoGFX.draw_text self x y text colour None 1 = Some (self, tr)
  /\ exists self',
       PicoGFX.draw_text_via_sprite self o.1 o.2 text colour None 1
       = Some (self', tr).
Proof.
  intros Hne Hok. cbv zeta.
  assert (Hsz : PicoGFX.get_text_size text 1 = (8 * len text, 8))
    by (unfold PicoGFX.get_text_size; simpl; f_equal; lia).
  rewrite Hsz. simpl.
  assert (Hcell : base_buffer text colour 0 0
                  = fb_text (replicate (Z.to_nat (8 * len text * 8 * 2)) 0)
                      (8 * len text) 8 text colour).
  { unfold base_buffer. f_equal. pose proof (len_nonneg text).
    replace (Z.to_nat (8 * len text * 8 * 2))
      with (2 * Z.to_nat (64 * len text))%nat by lia.
    generalize (Z.to_nat (64 * len text)). clear.
    induction n as [|n IH]; [done|].
    replace (2 * S n)%nat with (S (S (2 * n))) by lia. simpl.
    by rewrite IH. }
  split.
  - rewrite draw_text_fast by (done || lia). by rewrite Hcell.
  - unfold PicoGFX.draw_text_via_sprite.
    destruct (get_text_sprite_total self text colour None 1 Hok)
      as (self' & spr & -> & Hr & _).
    destruct (render_text_sprite_total text colour None 1)
      as (data & Hr' & Hdata).
    assert (Hspr : spr = PicoGFX.mkSprite (8 * len text) 8
                            (base_buffer text colour 0 0) None)
      by (rewrite Hsz, Hdata in Hr' by lia; simpl in Hr'; congruence).
    subst spr. simpl. exists self'. by rewrite Hcell.
Qed.

Lemma fast_text_path_is_sprite_path_witness :
  exists tr self',
    PicoGFX.draw_text (H := Framebuf.sample) (PicoGFX.init ILI9341.default)
      236 (-4) "HIT" 0x07E0 None 1
    = Some (PicoGFX.init ILI9341.default, tr)
    /\ PicoGFX.draw_text_via_sprite (H := Framebuf.sample)
         (PicoGFX.init ILI9341.default) 216 0 "HIT" 0x07E0 None 1
       = Some (self', tr).
Proof.
  destruct (fast_text_path_is_sprite_path (H := Framebuf.sample)
              (PicoGFX.init ILI9341.default) 236 (-4) "HIT" 0x07E0
              eq_refl (init_cache_ok _)) as [Hfast [self' Hsprite]].
  eexists _, self'. split; [exact Hfast | exact Hsprite].
Defined.

(** ** C6: clamping of the text position *)

(** The clamp never leaves the box beyond the right or bottom edge; it
    keeps it from the left and top edges when the box fits. *)
Lemma clamp_origin_bounds (self : PicoGFX.t) (x y w h : Z) :
  (PicoGFX.clamp_origin self x y w h).1 + w <= PicoGFX.width self
  /\ (PicoGFX.clamp_origin self x y w h).2 + h <= PicoGFX.height self
  /\ (w <= PicoGFX.width self -> 0 <= (PicoGFX.clamp_origin self x y w h).1)
  /\ (h <= PicoGFX.height self -> 0 <= (PicoGFX.clamp_origin self x y w h).2).
Proof.
  unfold PicoGFX.clamp_origin. cbn [fst snd]. rewrite !Z.gtb_ltb.
  destruct (x <? 0) eqn:Ex; destruct (y <? 0) eqn:Ey;
    repeat match goal with
           | |- context [?a <? ?b] => destruct (Z.ltb_spec a b)
           end;
    repeat match goal with
           | E : (_ <? _) = true |- _ => apply Z.ltb_lt in E
           | E : (_ <? _) = false |- _ => apply Z.ltb_ge in E
           end; lia.
Qed.

(** On the 240 by 320 surface a text of 38 characters at scale 1 is 304
    pixels wide; [draw_text] moves it to [x' = 240 - 304 = -64], so the
    drawn origin is not within the surface. *)
Lemma draw_text_clamp_counterexample :
  let self := PicoGFX.init ILI9341.default in
  let text := "PLAYER WINS THIS ROUND, PRESS UP TWICE" in
  PicoGFX.get_text_size text 1 = (304, 8)
  /\ PicoGFX.draw_text (H := Framebuf.sample) self 10 20 text 0xFFFF None 1
     = Some (self,
             ILI9341.blit_rgb565 (-64) 20 304 8
               (base_buffer (H := Framebuf.sample) text 0xFFFF 0 0))
  /\ ~ (0 <= -64 /\ -64 + 304 <= PicoGFX.width self
        /\ 0 <= 20 /\ 20 + 8 <= PicoGFX.height self).
Proof.
  cbv zeta. split; [reflexivity|]. split; [|intros [Hc _]; by destruct Hc].
  by rewrite draw_text_fast.
Qed.

(** C6, amended. For every non-empty text whose box
    [(w, h) = get_text_size(text, scale)] fits the surface ([w <= width] and
    [h <= height]), and every position and scale, [draw_text] draws the whole
    box, in one blit, at an origin [(x', y')] with [0 <= x'],
    [x' + w <= width], [0 <= y'] and [y' + h <= height]. *)
Theorem draw_text_clamped_when_fits `{FrameBuffer} (self : PicoGFX.t)
    (x y : Z) (text : string) (colour : Z) (bg : option Z) (scale : Z) :
  py_not text = false -> cache_ok self ->
  let sz := PicoGFX.get_text_size text scale in
  let o := PicoGFX.clamp_origin self x y sz.1 sz.2 in
  sz.1 <= PicoGFX.width self -> sz.2 <= PicoGFX.height self ->
  (exists self' data,
      PicoGFX.draw_text self x y text colour bg scale
      = Some (self', ILI9341.blit_rgb565 o.1 o.2 sz.1 sz.2 data))
  /\ 0 <= o.1 /\ o.1 + sz.1 <= PicoGFX.width self
  /\ 0 <= o.2 /\ o.2 + sz.2 <= PicoGFX.height self.
Proof.
  intros Hne Hok sz o Hw Hh. split.
  - destruct (draw_text_blits self x y text colour bg scale Hne Hok)
      as (self' & data & Hd & _).
    by exists self', data.
  - destruct (clamp_origin_bounds self x y sz.1 sz.2) as (? & ? & ? & ?).
    subst o. auto.
Qed.

Lemma draw_text_clamped_when_fits_witness :
  exists self' data,
    PicoGFX.draw_text (H := Framebuf.sample) (PicoGFX.init ILI9341.default)
      230 315 "HI" 0xFFFF (Some 0) 2
    = Some (self', ILI9341.blit_rgb565 208 304 32 16 data).
Proof.
  destruct (draw_text_clamped_when_fits (H := Framebuf.sample)
              (PicoGFX.init ILI9341.default) 230 315 "HI" 0xFFFF (Some 0) 2
              eq_refl (init_cache_ok _))
    as [(self' & data & Hd) _].
  - vm_compute. intros Hc. discriminate Hc.
  - vm_compute. intros Hc. discriminate Hc.
  - exists self', data. exact Hd.
Defined.

(** ** The scenario of the spec, run *)

(** A game that counts its up presses and forgets them on reset. *)
Definition counting_game : Engine.Game nat :=
  Engine.mkGame nat (fun _ _ g => g) (fun g => g) (Some (fun _ => true))
    (Some (fun _ => 0%nat)) (Some S) None None None None None.

(** Up held on passes 2, 3 and 5; passes 2 and 5 are 200 ms apart. *)
Definition scenario_passes : list Engine.tick_input :=
  [Engine.mkTick 0 (sample_with Engine.Up false) 5;
   Engine.mkTick 100 (sample_with Engine.Up true) 105;
   Engine.mkTick 133 (sample_with Engine.Up true) 138;
   Engine.mkTick 166 (sample_with Engine.Up false) 171;
   Engine.mkTick 300 (sample_with Engine.Up true) 305].

Example scenario_fifth_pass_resets :
  let before :=
    (Engine.run Engine.ticks_diff_rp2 counting_game (Engine.init 33 true)
       7%nat 0 (take 4 scenario_passes)).1 in
  Engine._last_up_press_time (Engine.eng before) = Some 100
  /\ Engine.gst before = 8%nat
  /\ (Engine.tick Engine.ticks_diff_rp2 counting_game
        (Engine.mkTick 300 (sample_with Engine.Up true) 305) before).2
     = [Engine.EvOnPressed Engine.Up; Engine.EvReset]
  /\ Engine.gst
       (Engine.tick Engine.ticks_diff_rp2 counting_game
          (Engine.mkTick 300 (sample_with Engine.Up true) 305) before).1
     = 0%nat.
Proof. vm_compute. done. Qed.

(** ** C2: the double tap and elapsed time *)

(** The milliseconds gone by since [candidate], as far as the tick counter
    can tell: [time.ticks_ms] counts modulo [2^30] on this firmware. *)
Definition elapsed_ms (candidate now : Z) : Z := (now - candidate) mod 2 ^ 30.







(** * Further properties of the driver *)

(** ** What the display controller receives

    The controller latches a byte only while chip select is low, as a
    command when D/C is low and as data when D/C is high. *)

Inductive frame : Type :=
  | Command (bytes : list Z)
  | Data (bytes : list Z).

Definition frame_bytes (f : frame) : list Z :=
  match f with Command d | Data d => d end.

Definition is_data_frame (f : frame) : bool :=
  match f with Data _ => true | Command _ => false end.

(** The frames of a trace from given pin levels, with the pin levels it
    leaves; [None] when a transfer happens with chip select high. *)
Fixpoint bus_run (dc cs : bool) (t : bus_trace)
    : option (list frame * bool * bool) :=
  match t with
  | [] => Some ([], dc, cs)
  | DC v :: t' => bus_run v cs t'
  | CS v :: t' => bus_run dc v t'
  | SPI_write d :: t' =>
      if cs then None
      else '(fs, dc', cs') ← bus_run dc cs t';
           Some ((if dc then Data d else Command d) :: fs, dc', cs')
  end.

Lemma bus_run_app (t1 t2 : bus_trace) : forall dc cs fs1 dc1 cs1,
  bus_run dc cs t1 = Some (fs1, dc1, cs1) ->
  bus_run dc cs (t1 ++ t2)
  = '(fs2, dc2, cs2) ← bus_run dc1 cs1 t2; Some (fs1 ++ fs2, dc2, cs2).
Proof.
  induction t1 as [|op t1 IH]; intros dc cs fs1 dc1 cs1 Hrun; simpl in *.
  - injection Hrun as <- <- <-. by destruct (bus_run dc cs t2) as [[[??]?]|].
  - destruct op as [v|v|d]; [by apply IH | by apply IH |].
    destruct cs; [done|].
    destruct (bus_run dc false t1) as [[[fs dc'] cs']|] eqn:E; [|done].
    simpl in Hrun. injection Hrun as <- <- <-.
    rewrite (IH _ _ _ _ _ E).
    by destruct (bus_run dc' cs' t2) as [[[??]?]|].
Qed.

Lemma bus_run_set_window (dc : bool) (x0 y0 x1 y1 : Z) :
  bus_run dc true (ILI9341._set_window x0 y0 x1 y1)
  = Some ([Command [0x2A];
           Data [ILI9341.hi8 x0; ILI9341.lo8 x0; ILI9341.hi8 x1; ILI9341.lo8 x1];
           Command [0x2B];
           Data [ILI9341.hi8 y0; ILI9341.lo8 y0; ILI9341.hi8 y1; ILI9341.lo8 y1];
           Command [0x2C]], false, true).
Proof. reflexivity. Qed.

(** The pixel stream, chip select already low and D/C high: data frames
    only, the pins left as they were. *)
Lemma bus_run_stream (body : bus_trace) :
  forallb is_spi_write body = true ->
  exists fs,
    bus_run true false body = Some (fs, true, false)
    /\ forallb is_data_frame fs = true
    /\ mjoin (frame_bytes <$> fs) = spi_bytes body.
Proof.
  induction body as [|op body IH]; intros Hall; simpl in *.
  - by exists [].
  - destruct op as [v|v|d]; try done.
    destruct (IH Hall) as (fs & -> & Hd & Hb). simpl.
    exists (Data d :: fs). cbn [forallb is_data_frame andb].
    split; [done|]. split; [done|].
    rewrite <- Hb. reflexivity.
Qed.

(** ** The size of the SPI transfers of a fill *)

(** Every transfer of the pixel loop of [fill_rect] carries between 1 and
    64 whole pixels, and [pixels] pixels take [ceil(pixels / 64)]
    transfers. *)
Theorem fill_stream_chunks (hi lo : Z) (pixels : Z) :
  Forall (fun op => exists d, op = SPI_write d
                              /\ (2 <= length d <= 128)%nat
                              /\ Nat.Even (length d))
         (ILI9341.stream_pixels (ILI9341.colour_chunk hi lo) pixels)
  /\ Z.of_nat (length (ILI9341.stream_pixels (ILI9341.colour_chunk hi lo)
                         pixels))
     = (Z.max 0 pixels + 63) / 64.
Proof.
  assert (Hgen : forall (k : nat) (p : Z), (Z.to_nat p <= k)%nat ->
    Forall (fun op => exists d, op = SPI_write d
                                /\ (2 <= length d <= 128)%nat
                                /\ Nat.Even (length d))
           (ILI9341.stream_pixels (ILI9341.colour_chunk hi lo) p)
    /\ Z.of_nat (length (ILI9341.stream_pixels (ILI9341.colour_chunk hi lo) p))
       = (Z.max 0 p + 63) / 64).
  { induction k as [|k IH]; intros p Hk; rewrite stream_pixels_unfold.
    - rewrite (proj2 (Z.ltb_ge 0 p)) by lia. split; [constructor|].
      simpl. replace (Z.max 0 p) with 0 by lia. reflexivity.
    - destruct (0 <? p) eqn:Hp.
      + apply Z.ltb_lt in Hp. cbv zeta.
        set (n := if p <? 64 then p else 64).
        assert (Hn : 0 < n <= 64 /\ n <= p
                     /\ (p < 64 -> n = p) /\ (64 <= p -> n = 64))
          by (subst n; destruct (p <? 64) eqn:E;
              [apply Z.ltb_lt in E | apply Z.ltb_ge in E]; lia).
        destruct (IH (p - n)) as [Hall Hlen]; [lia|]. split.
        * constructor; [|exact Hall]. eexists. split; [reflexivity|].
          replace (Z.to_nat (n * 2)) with (2 * Z.to_nat n)%nat by lia.
          unfold ILI9341.colour_chunk. rewrite take_colour_pairs by lia.
          rewrite colour_pairs_length. split; [lia|].
          exists (Z.to_nat n). lia.
        * cbn [length]. rewrite Nat2Z.inj_succ, Hlen.
          destruct (Z_lt_le_dec p 64) as [Hlt|Hge];
            [replace (p - n) with 0 by lia | replace n with 64 by lia];
            Z.div_mod_to_equations; lia.
      + apply Z.ltb_ge in Hp. split; [constructor|].
        simpl. replace (Z.max 0 p) with 0 by lia. reflexivity. }
  apply (Hgen (Z.to_nat pixels)). lia.
Qed.

(** ** What the controller receives from the drawing primitives *)

Definition window_frames (x0 y0 x1 y1 : Z) : list frame :=
  [Command [0x2A];
   Data [ILI9341.hi8 x0; ILI9341.lo8 x0; ILI9341.hi8 x1; ILI9341.lo8 x1];
   Command [0x2B];
   Data [ILI9341.hi8 y0; ILI9341.lo8 y0; ILI9341.hi8 y1; ILI9341.lo8 y1];
   Command [0x2C]].

(** Whatever level D/C was left at, with chip select high as every routine
    leaves it: a fill that draws is received as the five window frames
    followed by data frames only, which together hold [w*h] colour byte
    pairs; a blit is received as the window frames and one data frame with
    the buffer; chip select is high again afterwards. *)
Theorem drawing_is_well_framed (self : ILI9341.t) (x y w h colour : Z)
    (buf : list Z) (dc : bool) :
  (ILI9341.fill_rect self x y w h colour = []
   \/ exists fs,
        bus_run dc true (ILI9341.fill_rect self x y w h colour)
        = Some (window_frames x y (x + w - 1) (y + h - 1) ++ fs, true, true)
        /\ forallb is_data_frame fs = true
        /\ mjoin (frame_bytes <$> fs)
           = mjoin (replicate (Z.to_nat (w * h))
                      [ILI9341.hi8 colour; ILI9341.lo8 colour]))
  /\ bus_run dc true (ILI9341.blit_rgb565 x y w h buf)
     = Some (window_frames x y (x + w - 1) (y + h - 1) ++ [Data buf],
             true, true).
Proof.
  split; [|reflexivity].
  assert (Hdec : (w <= 0 \/ h <= 0 \/ x < 0 \/ y < 0
                  \/ ILI9341.width self < x + w
                  \/ ILI9341.height self < y + h)
                 \/ (0 < w /\ 0 < h /\ 0 <= x /\ 0 <= y
                     /\ x + w <= ILI9341.width self
                     /\ y + h <= ILI9341.height self)) by lia.
  destruct Hdec as [Hout | (? & ? & ? & ? & ? & ?)];
    [left; by apply fill_rect_outside|].
  destruct (fill_rect_inside self x y w h colour)
    as (body & Heq & Hall & Hbytes); [done..|].
  right. rewrite Heq.
  destruct (bus_run_stream body Hall) as (fs & Hrun & Hdata & Hfs).
  exists fs. split; [|split; [done | by rewrite Hfs]].
  erewrite bus_run_app by apply bus_run_set_window.
  change ([DC true; CS false] ++ body ++ [CS true])
    with (DC true :: CS false :: body ++ [CS true]).
  cbn [bus_run]. erewrite bus_run_app by exact Hrun. simpl.
  by rewrite app_nil_r.
Qed.

(** ** Single pixels and the whole surface *)

(** [pixel] is the fill of a 1 by 1 rectangle: the same bus operations,
    and nothing at all for a position outside the surface. *)
Theorem pixel_is_unit_fill (self : ILI9341.t) (x y colour : Z) :
  ILI9341.pixel self x y colour = ILI9341.fill_rect self x y 1 1 colour
  /\ (ILI9341.pixel self x y colour = []
      <-> ~ (0 <= x < ILI9341.width self /\ 0 <= y < ILI9341.height self)).
Proof.
  assert (Heq : ILI9341.pixel self x y colour
                = ILI9341.fill_rect self x y 1 1 colour).
  { unfold ILI9341.pixel, ILI9341.fill_rect. rewrite !Z.geb_leb. simpl.
    replace (x + 1 - 1) with x by lia. replace (y + 1 - 1) with y by lia.
    destruct (Z.leb_spec 0 x), (Z.ltb_spec x 0); try lia; simpl; [|done].
    destruct (Z.ltb_spec x (ILI9341.width self)),
             (Z.leb_spec (ILI9341.width self) x); try lia; simpl;
      [|by destruct (y <? 0)].
    destruct (Z.leb_spec 0 y), (Z.ltb_spec y 0); try lia; simpl; [|done].
    destruct (Z.ltb_spec y (ILI9341.height self)),
             (Z.leb_spec (ILI9341.height self) y); try lia; simpl; done. }
  split; [exact Heq|]. rewrite Heq. split.
  - intros Hnil [Hx Hy].
    eapply fill_rect_drawn_nonempty; [|exact Hnil].
    apply fill_rect_inside; lia.
  - intros Hout. apply fill_rect_outside. lia.
Qed.

(** [clear] on a surface of positive size sets the window to the whole
    surface, [(0, 0, width-1, height-1)], and streams [width * height]
    colour pairs; the graphics layer's [clear] is the driver's. *)
Theorem clear_fills_surface (self : ILI9341.t) (colour : Z) :
  0 < ILI9341.width self -> 0 < ILI9341.height self ->
  fill_rect_drawn 0 0 (ILI9341.width self) (ILI9341.height self) colour
    (ILI9341.clear self colour)
  /\ PicoGFX.clear (PicoGFX.init self) colour = ILI9341.clear self colour.
Proof.
  intros Hw Hh. split; [|reflexivity].
  unfold ILI9341.clear. apply fill_rect_inside; lia.
Qed.

Lemma clear_fills_surface_witness :
  fill_rect_drawn 0 0 240 320 0x0000 (ILI9341.clear ILI9341.default 0x0000).
Proof.
  apply (clear_fills_surface ILI9341.default 0x0000); reflexivity.
Defined.

(** * Further properties of the graphics surface *)

(** ** Clipped and unclipped fills *)

(** On a rectangle that lies within the surface the clipped fill is the
    unclipped one. *)
Theorem safe_fill_rect_inside (self : PicoGFX.t) (x y w h colour : Z) :
  0 < w -> 0 < h -> 0 <= x -> 0 <= y ->
  x + w <= PicoGFX.width self -> y + h <= PicoGFX.height self ->
  PicoGFX.safe_fill_rect self x y w h colour
  = PicoGFX.fill_rect self x y w h colour.
Proof.
  intros. unfold PicoGFX.safe_fill_rect.
  rewrite (proj2 (Z.leb_gt w 0)), (proj2 (Z.leb_gt h 0)) by lia. simpl.
  replace (Z.max 0 x) with x by lia. replace (Z.max 0 y) with y by lia.
  replace (Z.min (PicoGFX.width self) (x + w)) with (x + w) by lia.
  replace (Z.min (PicoGFX.height self) (y + h)) with (y + h) by lia.
  rewrite (proj2 (Z.leb_gt (x + w - x) 0)),
          (proj2 (Z.leb_gt (y + h - y) 0)) by lia. simpl.
  f_equal; lia.
Qed.

Lemma safe_fill_rect_inside_witness :
  PicoGFX.safe_fill_rect (PicoGFX.init ILI9341.default) 34 61 40 10 0x8800
  = PicoGFX.fill_rect (PicoGFX.init ILI9341.default) 34 61 40 10 0x8800.
Proof.
  apply (safe_fill_rect_inside (PicoGFX.init ILI9341.default) 34 61 40 10
           0x8800); simpl; lia.
Defined.

(** Where the unclipped fill silently drops a rectangle that sticks out of
    the surface but meets it, the clipped fill still draws the part on the
    surface. *)
Theorem safe_fill_rect_draws_visible_part (self : PicoGFX.t)
    (x y w h colour : Z) :
  dims_ok self ->
  0 < PicoGFX.width self -> 0 < PicoGFX.height self ->
  0 < w -> 0 < h ->
  x < PicoGFX.width self -> y < PicoGFX.height self ->
  0 < x + w -> 0 < y + h ->
  x < 0 \/ y < 0 \/ PicoGFX.width self < x + w
  \/ PicoGFX.height self < y + h ->
  PicoGFX.fill_rect self x y w h colour = []
  /\ PicoGFX.safe_fill_rect self x y w h colour <> [].
Proof.
  intros [Hdw Hdh] HW HH Hw Hh Hx Hy Hxw Hyh Hout. split.
  - unfold PicoGFX.fill_rect. apply fill_rect_outside. lia.
  - unfold PicoGFX.safe_fill_rect.
    rewrite (proj2 (Z.leb_gt w 0)), (proj2 (Z.leb_gt h 0)) by lia. simpl.
    rewrite (proj2 (Z.leb_gt (Z.min (PicoGFX.width self) (x + w)
                              - Z.max 0 x) 0)),
            (proj2 (Z.leb_gt (Z.min (PicoGFX.height self) (y + h)
                              - Z.max 0 y) 0)) by lia. simpl.
    unfold PicoGFX.fill_rect.
    eapply fill_rect_drawn_nonempty. apply fill_rect_inside; lia.
Qed.

Lemma safe_fill_rect_draws_visible_part_witness :
  PicoGFX.fill_rect (PicoGFX.init ILI9341.default) 230 (-3) 40 7 0xFFFF = []
  /\ PicoGFX.safe_fill_rect (PicoGFX.init ILI9341.default) 230 (-3) 40 7 0xFFFF
     <> [].
Proof.
  apply (safe_fill_rect_draws_visible_part (PicoGFX.init ILI9341.default)
           230 (-3) 40 7 0xFFFF (init_dims_ok _));
    simpl; lia.
Defined.

(** ** Text measurement *)

Lemma len_append (s1 s2 : string) : len (s1 +:+ s2) = len s1 + len s2.
Proof.
  unfold len. induction s1 as [|c s1 IH]; simpl; [done|].
  rewrite !Nat2Z.inj_succ. lia.
Qed.

(** The box of a concatenation is as wide as the boxes of its parts
    together and as high as each. *)
Theorem get_text_size_append (s1 s2 : string) (scale : Z) :
  PicoGFX.get_text_size (s1 +:+ s2) scale
  = ((PicoGFX.get_text_size s1 scale).1 + (PicoGFX.get_text_size s2 scale).1,
     (PicoGFX.get_text_size s1 scale).2)
  /\ (PicoGFX.get_text_size s1 scale).2 = (PicoGFX.get_text_size s2 scale).2.
Proof.
  unfold PicoGFX.get_text_size. simpl. rewrite len_append.
  split; [f_equal; lia | done].
Qed.

(** ** The position clamp *)

(** A box that already lies within the surface is not moved; and when the
    box fits the surface, clamping a clamped position changes nothing. *)
Theorem clamp_origin_keeps_fitting (self : PicoGFX.t) (x y w h : Z) :
  (0 <= x -> 0 <= y ->
   x + w <= PicoGFX.width self -> y + h <= PicoGFX.height self ->
   PicoGFX.clamp_origin self x y w h = (x, y))
  /\ (w <= PicoGFX.width self -> h <= PicoGFX.height self ->
      PicoGFX.clamp_origin self
        (PicoGFX.clamp_origin self x y w h).1
        (PicoGFX.clamp_origin self x y w h).2 w h
      = PicoGFX.clamp_origin self x y w h).
Proof.
  assert (Hfix : forall x y,
            0 <= x -> 0 <= y ->
            x + w <= PicoGFX.width self -> y + h <= PicoGFX.height self ->
            PicoGFX.clamp_origin self x y w h = (x, y)).
  { intros x' y' ? ? ? ?. unfold PicoGFX.clamp_origin.
    rewrite (proj2 (Z.ltb_ge x' 0)), (proj2 (Z.ltb_ge y' 0)) by lia.
    rewrite !Z.gtb_ltb.
    by rewrite (proj2 (Z.ltb_ge _ _)), (proj2 (Z.ltb_ge _ _)) by lia. }
  split; [apply Hfix|].
  intros Hw Hh.
  destruct (clamp_origin_bounds self x y w h) as (? & ? & ? & ?).
  rewrite Hfix by auto. by destruct (PicoGFX.clamp_origin self x y w h).
Qed.

(** ** Text sprites *)

(** A text sprite is never missing; it has the measured size, carries no
    path, and its data holds exactly two bytes for each of its pixels. *)
Theorem text_sprite_well_formed `{FrameBuffer} (text : string) (colour : Z)
    (bg : option Z) (scale : Z) :
  exists spr,
    PicoGFX._render_text_sprite text colour bg scale = Some spr
    /\ (PicoGFX.spr_w spr, PicoGFX.spr_h spr)
       = PicoGFX.get_text_size text scale
    /\ PicoGFX.spr_path spr = None
    /\ Z.of_nat (length (PicoGFX.spr_data spr))
       = 2 * PicoGFX.spr_w spr * PicoGFX.spr_h spr.
Proof.
  pose proof (render_base_total text colour bg) as Hsmall.
  pose proof (len_nonneg text) as Hlen.
  set (small := match bg with
                | None => base_buffer text colour 0 0
                | Some bg0 => base_buffer text colour (ILI9341.hi8 bg0)
                                (ILI9341.lo8 bg0)
                end) in *.
  assert (Hsl : Z.of_nat (length small) = 2 * (8 * len text) * 8)
    by (subst small; destruct bg; apply base_buffer_length).
  unfold PicoGFX.get_text_size. cbv zeta.
  destruct (Z_le_gt_dec scale 1) as [E|E].
  - rewrite (render_text_sprite_1x text colour bg scale _ E Hsmall).
    assert (Hs' : (if scale <? 1 then 1 else scale) = 1)
      by (destruct (scale <? 1) eqn:E';
          [done | apply Z.ltb_ge in E'; lia]).
    rewrite Hs'. eexists. split; [reflexivity|]. simpl.
    repeat split; [f_equal; lia | lia].
  - destruct (render_text_sprite_scaled text colour bg scale small
                ltac:(lia) Hsmall Hsl) as (out & -> & Hout & _).
    rewrite (proj2 (Z.ltb_ge scale 1)) by lia.
    eexists. split; [reflexivity|]. simpl. repeat split. lia.
Qed.

(** ** The text cache *)

Lemma get_text_sprite_effect `{FrameBuffer} (self : PicoGFX.t)
    (text : string) (colour : Z) (bg : option Z) (scale : Z)
    (self1 : PicoGFX.t) (spr : PicoGFX.sprite) :
  PicoGFX._get_text_sprite self text colour bg scale = Some (self1, spr) ->
  PicoGFX._text_cache self1 !! (text, colour, bg, scale) = Some spr
  /\ (forall key, key <> (text, colour, bg, scale) ->
        PicoGFX._text_cache self1 !! key = PicoGFX._text_cache self !! key)
  /\ PicoGFX.tft self1 = PicoGFX.tft self
  /\ PicoGFX.width self1 = PicoGFX.width self
  /\ PicoGFX.height self1 = PicoGFX.height self
  /\ (forall s, PicoGFX._text_cache self !! (text, colour, bg, scale) = Some s ->
        self1 = self /\ spr = s).
Proof.
  unfold PicoGFX._get_text_sprite.
  destruct (PicoGFX._text_cache self !! (text, colour, bg, scale))
    as [s|] eqn:Hl.
  - intros [= <- <-].
    split; [done|]. split; [done|]. do 3 (split; [done|]).
    by intros s' [= <-].
  - destruct (PicoGFX._render_text_sprite text colour bg scale) as [r|];
      [|done].
    simpl. intros [= <- <-]. simpl.
    split; [apply lookup_insert_eq|].
    split; [intros key Hne; by apply lookup_insert_ne|].
    do 3 (split; [done|]). intros s' Hs'. discriminate Hs'.
Qed.

(** Once [_get_text_sprite] has returned a sprite for a key, the cache
    holds it under that key and asking again returns the same sprite and
    leaves the object as it is; entries under other keys and the surface
    size are never touched, and a key present beforehand is answered from
    the cache without any change. *)
Theorem text_cache_memoizes `{FrameBuffer} (self : PicoGFX.t)
    (text : string) (colour : Z) (bg : option Z) (scale : Z)
    (self1 : PicoGFX.t) (spr : PicoGFX.sprite) :
  PicoGFX._get_text_sprite self text colour bg scale = Some (self1, spr) ->
  PicoGFX._text_cache self1 !! (text, colour, bg, scale) = Some spr
  /\ PicoGFX._get_text_sprite self1 text colour bg scale = Some (self1, spr)
  /\ (forall key, key <> (text, colour, bg, scale) ->
        PicoGFX._text_cache self1 !! key = PicoGFX._text_cache self !! key)
  /\ (PicoGFX.width self1, PicoGFX.height self1)
     = (PicoGFX.width self, PicoGFX.height self)
  /\ (forall s, PicoGFX._text_cache self !! (text, colour, bg, scale) = Some s ->
        self1 = self /\ spr = s).
Proof.
  intros Hget.
  destruct (get_text_sprite_effect _ _ _ _ _ _ _ Hget)
    as (Hin & Hother & _ & Hw & Hh & Hhit).
  split; [done|].
  split; [unfold PicoGFX._get_text_sprite; by rewrite Hin|].
  split; [done|]. split; [congruence|done].
Qed.

Lemma text_cache_memoizes_witness :
  exists self1 spr,
    PicoGFX._get_text_sprite (H := Framebuf.sample)
      (PicoGFX.init ILI9341.default) "HIT" 0xFFFF (Some 0x632C) 1
    = Some (self1, spr)
    /\ PicoGFX._get_text_sprite (H := Framebuf.sample) self1 "HIT" 0xFFFF
         (Some 0x632C) 1
       = Some (self1, spr).
Proof.
  destruct (get_text_sprite_total (H := Framebuf.sample)
              (PicoGFX.init ILI9341.default) "HIT" 0xFFFF (Some 0x632C) 1
              (init_cache_ok _)) as (self1 & spr & Hget & _).
  exists self1, spr. split; [exact Hget|].
  exact (proj1 (proj2 (text_cache_memoizes (H := Framebuf.sample)
                         _ _ _ _ _ _ _ Hget))).
Defined.

(** [clear_caches] forgets every text sprite and keeps the surface; the
    next request for a key renders its sprite afresh and the cache then
    holds that one entry. *)
Theorem clear_caches_forgets `{FrameBuffer} (self : PicoGFX.t)
    (text : string) (colour : Z) (bg : option Z) (scale : Z) :
  (forall key, PicoGFX._text_cache (PicoGFX.clear_caches self) !! key = None)
  /\ PicoGFX.tft (PicoGFX.clear_caches self) = PicoGFX.tft self
  /\ (PicoGFX.width (PicoGFX.clear_caches self),
      PicoGFX.height (PicoGFX.clear_caches self))
     = (PicoGFX.width self, PicoGFX.height self)
  /\ exists spr,
       PicoGFX._render_text_sprite text colour bg scale = Some spr
       /\ PicoGFX._get_text_sprite (PicoGFX.clear_caches self)
            text colour bg scale
          = Some (PicoGFX.set_text_cache
                    (<[(text, colour, bg, scale) := spr]> ∅) self, spr).
Proof.
  split; [intros key; apply lookup_empty|]. split; [done|]. split; [done|].
  destruct (render_text_sprite_total text colour bg scale)
    as (data & Hr & _).
  eexists. split; [exact Hr|].
  unfold PicoGFX._get_text_sprite, PicoGFX.clear_caches. simpl.
  rewrite lookup_empty, Hr. reflexivity.
Qed.

(** ** [draw_text] at its edges *)

(** The empty text draws nothing and leaves the cache alone, whatever the
    other arguments; and a scale below 1 draws exactly what scale 1
    draws. *)
Theorem draw_text_degenerate `{FrameBuffer} (self : PicoGFX.t) (x y : Z)
    (text : string) (colour : Z) (bg : option Z) (scale : Z) :
  PicoGFX.draw_text self x y EmptyString colour bg scale = Some (self, [])
  /\ (scale < 1 ->
      PicoGFX.draw_text self x y text colour bg scale
      = PicoGFX.draw_text self x y text colour bg 1).
Proof.
  split; [reflexivity|]. intros Hs. unfold PicoGFX.draw_text.
  destruct (py_not text); [done|]. cbv zeta.
  rewrite (proj2 (Z.ltb_lt scale 1)) by done.
  change (1 <? 1) with false. cbv iota. reflexivity.
Qed.

(** Drawing the same text with the same arguments a second time puts the
    same operations on the bus and leaves the object as the first call
    left it. *)
Theorem draw_text_repeats `{FrameBuffer} (self : PicoGFX.t) (x y : Z)
    (text : string) (colour : Z) (bg : option Z) (scale : Z)
    (self1 : PicoGFX.t) (tr : bus_trace) :
  PicoGFX.draw_text self x y text colour bg scale = Some (self1, tr) ->
  PicoGFX.draw_text self1 x y text colour bg scale = Some (self1, tr).
Proof.
  unfold PicoGFX.draw_text. destruct (py_not text); [by intros [= <- <-]|].
  cbv zeta. set (scale' := if scale <? 1 then 1 else scale).
  destruct (PicoGFX.get_text_size text scale') as [w h].
  unfold PicoGFX.clamp_origin.
  destruct ((scale' =? 1) && (if bg is None then true else false)).
  - destruct (ILI9341.text _ _ text colour 0) as [t|] eqn:Et; [|done].
    simpl. intros [= <- <-]. by rewrite Et.
  - unfold PicoGFX.draw_text_via_sprite.
    destruct (PicoGFX._get_text_sprite self text colour bg scale')
      as [[self2 spr]|] eqn:Hget; [|done].
    simpl. intros [= <- <-].
    destruct (get_text_sprite_effect _ _ _ _ _ _ _ Hget)
      as (Hin & _ & _ & -> & -> & _).
    unfold PicoGFX._get_text_sprite. by rewrite Hin.
Qed.

Lemma draw_text_repeats_witness :
  exists self1 tr,
    PicoGFX.draw_text (H := Framebuf.sample) (PicoGFX.init ILI9341.default)
      40 50 "Dealer" 0xFFFF (Some 0x8800) 1 = Some (self1, tr)
    /\ PicoGFX.draw_text (H := Framebuf.sample) self1
         40 50 "Dealer" 0xFFFF (Some 0x8800) 1 = Some (self1, tr).
Proof.
  destruct (draw_text_blits (H := Framebuf.sample)
              (PicoGFX.init ILI9341.default) 40 50 "Dealer" 0xFFFF
              (Some 0x8800) 1 eq_refl (init_cache_ok _))
    as (self1 & data & Hd & _).
  eexists self1, _. split; [exact Hd|].
  exact (draw_text_repeats (H := Framebuf.sample) _ _ _ _ _ _ _ _ _ Hd).
Defined.

(** * Further properties of the engine *)

(** ** [Engine/input_pico.py] *)

Module InputPico.

(** What [Pin.value()] returns for the four buttons, wired to ground with
    pull-ups. *)
Record pins : Type := mkPins {
  btn_up : Z;
  btn_down : Z;
  btn_left : Z;
  btn_right : Z
}.

Definition read_input_state (p : pins) : Engine.InputState :=
  let s := Engine.InputState_init in
  {| Engine.up := (btn_up p =? 0);
     Engine.down := (btn_down p =? 0);
     Engine.left := (btn_left p =? 0);
     Engine.right := (btn_right p =? 0);
     Engine.a := Engine.a s;
     Engine.b := Engine.b s;
     Engine.up_pressed := Engine.up_pressed s;
     Engine.down_pressed := Engine.down_pressed s;
     Engine.left_pressed := Engine.left_pressed s;
     Engine.right_pressed := Engine.right_pressed s;
     Engine.a_pressed := Engine.a_pressed s;
     Engine.b_pressed := Engine.b_pressed s |}.

End InputPico.

(** ** The order of dispatch *)

Section DispatchFacts.

Context {G : Type} (game : Engine.Game G).

(** The calls for one button: its handler, if it was just pressed and the
    game has one. *)
Definition button_calls (s : Engine.InputState) (b : Engine.button)
    : list Engine.event :=
  if Engine.pressed b s
  then opt_event (Engine.handler game b) (Engine.EvOnPressed b)
  else [].

Lemma dispatch_trace (self : Engine.t) (g : G) :
  (Engine._dispatch_input_events game self g).2
  = mjoin (button_calls (Engine._current_input self) <$> Engine.all_buttons).
Proof.
  unfold Engine._dispatch_input_events. rewrite !call_if_trace.
  cbn [snd fmap list_fmap Engine.all_buttons mjoin list_join button_calls
       Engine.pressed Engine.handler].
  rewrite app_nil_r, <- !app_assoc. reflexivity.
Qed.

Lemma button_calls_elem (s : Engine.InputState) (b b' : Engine.button) :
  Engine.EvOnPressed b ∈ button_calls s b'
  <-> b = b' /\ Engine.pressed b s = true
      /\ is_Some (Engine.handler game b).
Proof.
  unfold button_calls. split.
  - destruct (Engine.pressed b' s) eqn:Hp; [|by intros ?%elem_of_nil].
    destruct (Engine.handler game b') as [f|] eqn:Hh;
      [|by intros ?%elem_of_nil].
    intros [= ->]%list_elem_of_singleton. rewrite Hh. eauto.
  - intros (<- & -> & [f ->]). apply list_elem_of_singleton. done.
Qed.

Lemma button_calls_sublist (s : Engine.InputState) (b : Engine.button) :
  button_calls s b `sublist_of` [Engine.EvOnPressed b].
Proof.
  unfold button_calls. destruct (Engine.pressed b s); [|apply sublist_nil_l].
  destruct (Engine.handler game b); [done | apply sublist_nil_l].
Qed.

(** The dispatch calls the handlers in the fixed order up, down, left,
    right, a, b, each at most once, and calls the handler of a button
    exactly when that button was just pressed and the game has the
    handler. *)
Theorem dispatch_in_fixed_order (self : Engine.t) (g : G) :
  let tr := (Engine._dispatch_input_events game self g).2 in
  tr `sublist_of` (Engine.EvOnPressed <$> Engine.all_buttons)
  /\ NoDup tr
  /\ forall b : Engine.button,
       Engine.EvOnPressed b ∈ tr
       <-> Engine.pressed b (Engine._current_input self) = true
           /\ is_Some (Engine.handler game b).
Proof.
  cbv zeta. rewrite dispatch_trace.
  assert (Hsub : mjoin (button_calls (Engine._current_input self)
                          <$> Engine.all_buttons)
                 `sublist_of` (Engine.EvOnPressed <$> Engine.all_buttons)).
  { cbn [fmap list_fmap Engine.all_buttons mjoin list_join].
    repeat (apply (sublist_app _ [_]); [apply button_calls_sublist|]).
    done. }
  split; [exact Hsub|]. split.
  - eapply sublist_NoDup; [|exact Hsub].
    cbn [fmap list_fmap Engine.all_buttons].
    repeat (apply NoDup_cons_2;
            [rewrite ?not_elem_of_cons;
             repeat split; try discriminate; apply not_elem_of_nil|]).
    apply NoDup_nil_2.
  - intros b. cbn [fmap list_fmap Engine.all_buttons mjoin list_join].
    rewrite !elem_of_app, !button_calls_elem, elem_of_nil.
    destruct b; intuition congruence.
Qed.

End DispatchFacts.

(** ** Passes of the loop *)

Section PassFacts.

Variable ticks_diff : Z -> Z -> Z.
Context {G : Type} (game : Engine.Game G).

Definition is_draw_call (e : Engine.event) : bool :=
  match e with Engine.EvDraw => true | _ => false end.

Definition is_present_call (e : Engine.event) : bool :=
  match e with Engine.EvPresent => true | _ => false end.

(** The game as [update] leaves it on a pass, after the dispatch. *)
Definition after_update (i : Engine.tick_input) (w : Engine.loop_state) : G :=
  let self := Engine._update_input (Engine.eng w) (Engine.tick_sample i) in
  Engine.update game
    (ticks_diff (Engine.tick_now i) (Engine.last_time w))
    (Engine._current_input self)
    (Engine._dispatch_input_events game self (Engine.gst w)).1.

(** Whether a pass that gets as far as drawing draws. *)
Definition wants_draw (i : Engine.tick_input) (w : Engine.loop_state) : bool :=
  match Engine.should_redraw game with
  | Some f => f (after_update i w) || Engine.first_frame w
  | None => true
  end.

(** The calls of a pass that is not a double tap, in full. *)
Lemma plain_pass_trace (i : Engine.tick_input) (w : Engine.loop_state) :
  spec_double_tap ticks_diff (Engine.eng w) i = false ->
  let self := Engine._update_input (Engine.eng w) (Engine.tick_sample i) in
  let spare := Engine.frame_budget_ms (Engine.eng w)
               - ticks_diff (Engine.tick_end i) (Engine.tick_now i) in
  Engine.tick ticks_diff game i w
  = (Engine.mkLoop (after_plain_pass (Engine.eng w) i)
       (if wants_draw i w then Engine.draw game (after_update i w)
        else after_update i w)
       (Engine.tick_now i) false,
     (Engine._dispatch_input_events game self (Engine.gst w)).2
     ++ [Engine.EvUpdate
           (ticks_diff (Engine.tick_now i) (Engine.last_time w))
           (Engine._current_input self)]
     ++ (if Engine.should_redraw game is Some _
         then [Engine.EvShouldRedraw] else [])
     ++ (if wants_draw i w then [Engine.EvDraw; Engine.EvPresent] else [])
     ++ (if spare >? 0 then [Engine.EvSleep spare] else [])).
Proof.
  intros Hc. cbv zeta. rewrite tick_plain by done.
  unfold Engine.update_draw_pace, wants_draw, after_update.
  destruct (Engine._dispatch_input_events game _ (Engine.gst w))
    as [g tr] eqn:Hd.
  assert (Hcur : Engine._current_input (after_plain_pass (Engine.eng w) i)
                 = Engine._current_input
                     (Engine._update_input (Engine.eng w) (Engine.tick_sample i)))
    by (unfold after_plain_pass; by destruct (Engine.up_pressed _)).
  assert (Hbud : Engine.frame_budget_ms (after_plain_pass (Engine.eng w) i)
                 = Engine.frame_budget_ms (Engine.eng w))
    by (unfold after_plain_pass; by destruct (Engine.up_pressed _)).
  rewrite Hcur, Hbud. cbn [fst snd].
  destruct (Engine.should_redraw game) as [f|];
    [destruct (f _ || Engine.first_frame w)|];
    destruct (_ >? 0); rewrite <- ?app_assoc; reflexivity.
Qed.

(** A pass draws, and presents right after, exactly when it is not a
    double tap and either the game has no [should_redraw], or
    [should_redraw] (asked after [update]) says so, or no pass has got
    this far since [run] started.  In particular the first such pass
    always draws, whatever [should_redraw] returns.  The calls of a pass
    that draws are [pre ++ [draw; present] ++ post] with neither call in
    [pre] or [post]; a pass that does not draw calls neither. *)
Theorem draw_only_when_wanted (i : Engine.tick_input) (w : Engine.loop_state) :
  let tr := (Engine.tick ticks_diff game i w).2 in
  existsb is_draw_call tr
  = negb (spec_double_tap ticks_diff (Engine.eng w) i) && wants_draw i w
  /\ existsb is_present_call tr = existsb is_draw_call tr
  /\ (Engine.first_frame w = true -> wants_draw i w = true)
  /\ Engine.first_frame (Engine.tick ticks_diff game i w).1
     = spec_double_tap ticks_diff (Engine.eng w) i && Engine.first_frame w
  /\ (if negb (spec_double_tap ticks_diff (Engine.eng w) i) && wants_draw i w
      then exists pre post,
             tr = pre ++ [Engine.EvDraw; Engine.EvPresent] ++ post
             /\ existsb is_draw_call pre = false
             /\ existsb is_present_call pre = false
             /\ existsb is_draw_call post = false
             /\ existsb is_present_call post = false
      else existsb is_draw_call tr = false
           /\ existsb is_present_call tr = false).
Proof.
  cbv zeta.
  assert (Hnone : forall q : Engine.event -> bool,
            (forall e, is_dispatch e = true -> q e = false) ->
            existsb q
              (Engine._dispatch_input_events game
                 (Engine._update_input (Engine.eng w) (Engine.tick_sample i))
                 (Engine.gst w)).2 = false)
    by (intros q Hq; apply (existsb_none_of is_dispatch); [done|];
        apply dispatch_only_pressed).
  assert (Hfirst : Engine.first_frame w = true -> wants_draw i w = true).
  { intros Hf. unfold wants_draw. rewrite Hf.
    destruct (Engine.should_redraw game); [apply orb_true_r | done]. }
  destruct (spec_double_tap ticks_diff (Engine.eng w) i) eqn:Hc.
  - rewrite tick_double_tap by done. cbn [fst snd Engine.first_frame].
    rewrite !existsb_app, !Hnone by (by intros []).
    repeat split; try done; by destruct (Engine.reset game).
  - rewrite plain_pass_trace by done. cbn [fst snd Engine.first_frame negb].
    rewrite andb_true_l.
    split; [|split; [|split; [done|split; [done|]]]].
    + rewrite !existsb_app, !Hnone by (by intros []).
      destruct (Engine.should_redraw game), (wants_draw i w), (_ >? 0);
        reflexivity.
    + rewrite !existsb_app, !Hnone by (by intros []).
      destruct (Engine.should_redraw game), (wants_draw i w), (_ >? 0);
        reflexivity.
    + destruct (wants_draw i w).
      * match goal with
        | |- context [?d ++ ?u ++ ?s ++ [Engine.EvDraw; Engine.EvPresent] ++ ?z] =>
            exists (d ++ u ++ s), z
        end.
        split; [by rewrite <- !app_assoc|].
        rewrite !existsb_app, !Hnone by (by intros []).
        destruct (Engine.should_redraw game), (_ >? 0); done.
      * rewrite !existsb_app, !Hnone by (by intros []).
        split; destruct (Engine.should_redraw game), (_ >? 0); reflexivity.
Qed.


(** [run] sets the running flag itself, so a [stop] before [run] has no
    effect; and once the flag is down the loop makes no further pass and
    calls nothing. *)
Theorem stop_only_ends_a_running_loop (self : Engine.t) (g : G) (start : Z)
    (ins : list Engine.tick_input) (w : Engine.loop_state) :
  Engine.run ticks_diff game (Engine.stop self) g start ins
  = Engine.run ticks_diff game self g start ins
  /\ Engine.run_loop ticks_diff game ins
       (Engine.mkLoop (Engine.stop (Engine.eng w)) (Engine.gst w)
          (Engine.last_time w) (Engine.first_frame w))
     = (Engine.mkLoop (Engine.stop (Engine.eng w)) (Engine.gst w)
          (Engine.last_time w) (Engine.first_frame w), []).
Proof. split; [reflexivity|]. by destruct ins. Qed.

End PassFacts.

(** ** The reference buttons have no a and b *)

Section ReferenceInput.

Variable ticks_diff : Z -> Z -> Z.
Context {G : Type} (game : Engine.Game G).

Lemma existsb_elem_of {A} (p : A -> bool) (l : list A) :
  existsb p l = false <-> forall x, x ∈ l -> p x = false.
Proof.
  induction l as [|y l IH]; simpl.
  - split; [by intros _ x ?%elem_of_nil | done].
  - rewrite orb_false_iff, IH. split.
    + intros [Hy Hl] x [->|Hx]%elem_of_cons; auto.
    + intros Hall. split; [apply Hall; left|].
      intros x Hx. apply Hall. by right.
Qed.

Lemma is_on_pressed_spec (b : Engine.button) (e : Engine.event) :
  Engine.is_on_pressed b e = true <-> e = Engine.EvOnPressed b.
Proof. destruct e as [b'| | | | | |]; destruct b; try destruct b'; by split. Qed.

Lemma tick_no_call_unless_pressed (b : Engine.button)
    (i : Engine.tick_input) (w : Engine.loop_state) :
  Engine.pressed b
    (Engine._current_input
       (Engine._update_input (Engine.eng w) (Engine.tick_sample i))) = false ->
  existsb (Engine.is_on_pressed b) (Engine.tick ticks_diff game i w).2 = false.
Proof.
  intros Hp.
  assert (Hd : existsb (Engine.is_on_pressed b)
                 (Engine._dispatch_input_events game
                    (Engine._update_input (Engine.eng w) (Engine.tick_sample i))
                    (Engine.gst w)).2 = false).
  { apply existsb_elem_of. intros e He.
    destruct (Engine.is_on_pressed b e) eqn:E; [|done].
    apply is_on_pressed_spec in E as ->.
    rewrite dispatch_trace in He.
    cbn [fmap list_fmap Engine.all_buttons mjoin list_join] in He.
    rewrite !elem_of_app, !button_calls_elem, elem_of_nil in He.
    rewrite Hp in He. intuition discriminate. }
  destruct (spec_double_tap ticks_diff (Engine.eng w) i) eqn:Hc.
  - rewrite tick_double_tap by done. cbn [snd].
    rewrite existsb_app, Hd. destruct (Engine.reset game); by destruct b.
  - rewrite plain_pass_trace by done. cbn [snd].
    rewrite !existsb_app, Hd.
    destruct (Engine.should_redraw game), (wants_draw _ _ _ _), (_ >? 0);
      by destruct b.
Qed.

(** A pass reading the pins through [read_input_state]. *)
Definition reference_pass (r : Z * InputPico.pins * Z) : Engine.tick_input :=
  Engine.mkTick r.1.1 (InputPico.read_input_state r.1.2) r.2.

(** With [read_input_state] as the input provider, whatever the pins read
    and however long the engine runs, [on_a_pressed] and [on_b_pressed] are
    never called. *)
Theorem reference_input_never_presses_a_b (self : Engine.t) (g : G)
    (start : Z) (readings : list (Z * InputPico.pins * Z)) :
  let tr := (Engine.run ticks_diff game self g start
               (reference_pass <$> readings)).2 in
  existsb (Engine.is_on_pressed Engine.A) tr = false
  /\ existsb (Engine.is_on_pressed Engine.B) tr = false.
Proof.
  cbv zeta. unfold Engine.run.
  generalize (Engine.run_entry self g start).
  induction readings as [|r rs IH]; intros w; [done|].
  cbn [fmap list_fmap Engine.run_loop].
  destruct (Engine._running (Engine.eng w)); [|done].
  destruct (Engine.tick ticks_diff game (reference_pass r) w)
    as [w1 tr1] eqn:Ht.
  destruct (Engine.run_loop ticks_diff game (reference_pass <$> rs) w1)
    as [w2 tr2] eqn:Hr.
  specialize (IH w1). rewrite Hr in IH. destruct IH as [IHa IHb].
  cbn [snd] in *. rewrite !existsb_app, IHa, IHb.
  pose proof (tick_no_call_unless_pressed Engine.A (reference_pass r) w) as Ha.
  pose proof (tick_no_call_unless_pressed Engine.B (reference_pass r) w) as Hb.
  rewrite Ht in Ha, Hb. cbn [snd] in Ha, Hb.
  rewrite Ha, Hb; [done| |];
    unfold Engine._update_input; simpl; unfold Engine.raw_input;
    by destruct (Engine.has_input_provider (Engine.eng w)).
Qed.

End ReferenceInput.

(** * [Games/blackjack.py]: the card logic *)

(** ** More Python helpers *)

(** [lst[i]] and [lst[i] = v] on a list of anything. *)
Definition list_getitem {A : Type} (lst : list A) (i : Z) : option A :=
  k ← py_index (length lst) i; lst !! k.

Definition list_setitem {A : Type} (lst : list A) (i : Z) (v : A)
    : option (list A) :=
  k ← py_index (length lst) i; Some (<[k:=v]> lst).

(** [lst.pop()]: the last element and what is left; [IndexError] on an
    empty list. *)
Definition list_pop {A : Type} (lst : list A) : option (list A * A) :=
  match reverse lst with
  | [] => None
  | x :: rest => Some (reverse rest, x)
  end.

(** [range(n, 0, -1)] *)
Definition py_range_down (n : Z) : list Z := reverse (seqZ 1 n).

(** [str(n)] of an integer. *)
Definition py_str (n : Z) : string :=
  DecimalString.NilZero.string_of_int (Z.to_int n).

(** The [random] module: the value returned by its k-th call, and how many
    calls were made.  [random.getrandbits(16)] and [random.randint(1, 5)]
    each take the next value. *)
Record rng : Type := mkRng {
  rng_values : nat -> Z;
  rng_calls : nat
}.

Definition next_random (r : rng) : Z * rng :=
  (rng_values r (rng_calls r), mkRng (rng_values r) (S (rng_calls r))).

(** The built-in [int] on a string, [None] for [ValueError].  It is taken
    as an interface with the one law the deck needs: a non-empty string of
    decimal digits is read as the number it writes. *)
Definition digit_value (c : Ascii.ascii) : option Z :=
  let n := Z.of_N (Ascii.N_of_ascii c) in
  if (48 <=? n) && (n <=? 57) then Some (n - 48) else None.

Fixpoint digits_value (acc : Z) (s : string) : option Z :=
  match s with
  | EmptyString => Some acc
  | String c s' => d ← digit_value c; digits_value (10 * acc + d) s'
  end.

Class PyInt : Type := {
  py_int : string -> option Z;
  py_int_digits :
    forall (c : Ascii.ascii) (s : string) (n : Z),
      digits_value 0 (String c s) = Some n -> py_int (String c s) = Some n
}.

(** ** [mp_shuffle] *)

Definition mp_shuffle {A : Type} (lst : list A) (r : rng)
    : option (list A * rng) :=
  for_each (py_range_down (Z.of_nat (length lst) - 1))
    (fun i '(lst, r) =>
       let '(bits, r) := next_random r in
       let j := bits mod (i + 1) in
       a ← list_getitem lst j;
       b ← list_getitem lst i;
       lst ← list_setitem lst i a;
       lst ← list_setitem lst j b;
       Some (lst, r))
    (lst, r).

Module Blackjack.

Definition CARD_W : Z := 37.
Definition CARD_H : Z := 52.
Definition CARD_PATH_ROOT : string := "/bin_files/".

(** The fields of the game object that the card logic reads or writes.
    ([dealer_timer], a float that these methods only reset to [0.0], and
    the layout and sprite-cache fields are not among them.) *)
Record t : Type := mk {
  needs_redraw : bool;
  state : string;
  player_final : Z;
  dealer_back_sprite : PicoGFX.sprite;
  deck : list string;
  player_cards : list string;
  dealer_cards : list string;
  status_text : string
}.

Definition set_state (v : string) (self : t) : t :=
  mk (needs_redraw self) v (player_final self) (dealer_back_sprite self)
     (deck self) (player_cards self) (dealer_cards self) (status_text self).
Definition set_player_final (v : Z) (self : t) : t :=
  mk (needs_redraw self) (state self) v (dealer_back_sprite self)
     (deck self) (player_cards self) (dealer_cards self) (status_text self).
Definition set_dealer_back_sprite (v : PicoGFX.sprite) (self : t) : t :=
  mk (needs_redraw self) (state self) (player_final self) v
     (deck self) (player_cards self) (dealer_cards self) (status_text self).
Definition set_deck (v : list string) (self : t) : t :=
  mk (needs_redraw self) (state self) (player_final self)
     (dealer_back_sprite self) v (player_cards self) (dealer_cards self)
     (status_text self).
Definition set_player_cards (v : list string) (self : t) : t :=
  mk (needs_redraw self) (state self) (player_final self)
     (dealer_back_sprite self) (deck self) v (dealer_cards self)
     (status_text self).
Definition set_dealer_cards (v : list string) (self : t) : t :=
  mk (needs_redraw self) (state self) (player_final self)
     (dealer_back_sprite self) (deck self) (player_cards self) v
     (status_text self).
Definition set_status_text (v : string) (self : t) : t :=
  mk (needs_redraw self) (state self) (player_final self)
     (dealer_back_sprite self) (deck self) (player_cards self)
     (dealer_cards self) v.

(** [GameBase.request_redraw] *)
Definition request_redraw (self : t) : t :=
  mk true (state self) (player_final self) (dealer_back_sprite self)
     (deck self) (player_cards self) (dealer_cards self) (status_text self).

Definition suits : list string := ["Clubs"; "Diamonds"; "Hearts"; "Spades"].
Definition ranks : list string :=
  ["2"; "3"; "4"; "5"; "6"; "7"; "8"; "9"; "10"; "J"; "Q"; "K"; "ACE"].

Definition _build_deck : list string :=
  foldl (fun deck s =>
           foldl (fun deck r => deck ++ [s +:+ "_" +:+ r]) deck ranks)
        [] suits.

(** [cid.split("_", 1)[1]]: what follows the first underscore;
    [IndexError] when there is none. *)
Fixpoint after_underscore (cid : string) : option string :=
  match cid with
  | EmptyString => None
  | String c rest =>
      if Ascii.eqb c "_"%char then Some rest else after_underscore rest
  end.

(** The body of the [for] loop of [_hand_value]: the value of a card and
    what it adds to [aces].  [None] is a raised exception, whichever it
    is: the [IndexError] of [split("_", 1)[1]] and the [ValueError] of
    [int(rank)] are not told apart. *)
Definition card_value `{PyInt} (cid : string) : option (Z * Z) :=
  rank ← after_underscore cid;
  if String.eqb rank "ACE" then Some (11, 1)
  else if String.eqb rank "J" || String.eqb rank "Q" || String.eqb rank "K"
       then Some (10, 0)
       else val ← py_int rank; Some (val, 0).

(** [while total > 21 and aces > 0: total -= 10; aces -= 1]; each pass
    lowers [aces], so [Z.to_nat aces] passes are enough. *)
Fixpoint soften_loop (fuel : nat) (total aces : Z) : Z :=
  match fuel with
  | O => total
  | S fuel' =>
      if (total >? 21) && (aces >? 0)
      then soften_loop fuel' (total - 10) (aces - 1)
      else total
  end.

Definition soften (total aces : Z) : Z :=
  soften_loop (Z.to_nat aces) total aces.

Definition _hand_value `{PyInt} (card_ids : list string) : option Z :=
  '(total, aces) ← for_each card_ids
                     (fun cid '(total, aces) =>
                        '(val, ace) ← card_value cid;
                        Some (total + val, aces + ace))
                     (0, 0);
  Some (soften total aces).

Section WithFiles.

(** The files that [open(path, "rb")] finds, with their contents. *)
Variable files : gmap string (list Z).

Context `{PyInt}.

(** [PicoGFX.load_sprite_rgb565]; [None] when the file cannot be opened. *)
Definition load_sprite_rgb565 (path : string) (w h : Z)
    : option PicoGFX.sprite :=
  data ← files !! path;
  Some (PicoGFX.mkSprite w h data (Some path)).

Definition _load_card_sprite (file_name : string) : option PicoGFX.sprite :=
  let full_path := CARD_PATH_ROOT +:+ file_name in
  load_sprite_rgb565 full_path CARD_W CARD_H.

Definition _draw_card_id (self : t) (r : rng) : option (string * t * rng) :=
  '(self, r) ← (if bool_decide (deck self = [])
                then '(d, r) ← mp_shuffle _build_deck r;
                     Some (set_deck d self, r)
                else Some (self, r));
  '(d, card) ← list_pop (deck self);
  Some (card, set_deck d self, r).

(** [_reset_round]; [None] when loading the card back raises, which ends
    the call before the deck is built. *)
Definition _reset_round (self : t) (r : rng) : option (t * rng) :=
  let self := set_state "player_turn" self in
  let self := set_player_final 0 self in
  let '(num, r) := next_random r in
  spr ← _load_card_sprite ("Back_" +:+ py_str num +:+ ".bin");
  let self := set_dealer_back_sprite spr self in
  '(d, r) ← mp_shuffle _build_deck r;
  let self := set_deck d self in
  '(card, self, r) ← _draw_card_id self r;
  let self := set_player_cards [card] self in
  '(card, self, r) ← _draw_card_id self r;
  let self := set_dealer_cards [card] self in
  let self := set_status_text "Blackjack demo" self in
  Some (request_redraw self, r).

Definition _player_hit (self : t) (r : rng) : option (t * rng) :=
  '(card, self, r) ← _draw_card_id self r;
  let self := set_player_cards (player_cards self ++ [card]) self in
  player_val ← _hand_value (player_cards self);
  let self :=
    if player_val >? 21
    then set_state "round_over" (set_status_text "Bust! You lose." self)
    else set_status_text "You hit!" self in
  Some (request_redraw self, r).

Definition _player_stand (self : t) : option t :=
  v ← _hand_value (player_cards self);
  let self := set_player_final v self in
  let self := set_status_text "Dealer's turn..." self in
  let self := set_state "dealer_turn" self in
  Some (request_redraw self).

Definition on_left_pressed (self : t) (r : rng) : option (t * rng) :=
  if negb (String.eqb (state self) "player_turn") then Some (self, r)
  else _player_hit self r.

Definition on_right_pressed (self : t) : option t :=
  if negb (String.eqb (state self) "player_turn") then Some self
  else _player_stand self.

Definition _dealer_step (self : t) (r : rng) : option (t * rng) :=
  dealer_val ← _hand_value (dealer_cards self);
  if (player_final self <? dealer_val) && (dealer_val <=? 21) then
    let self := set_status_text "Dealer wins!" self in
    let self := set_state "round_over" self in
    Some (request_redraw self, r)
  else if (dealer_val =? player_final self) && (dealer_val =? 21) then
    let self := set_status_text "Draw!" self in
    let self := set_state "round_over" self in
    Some (request_redraw self, r)
  else
    '(card, self, r) ← _draw_card_id self r;
    let self := set_dealer_cards (dealer_cards self ++ [card]) self in
    dealer_val ← _hand_value (dealer_cards self);
    let self :=
      if dealer_val >? 21
      then set_state "round_over"
             (set_status_text "Dealer busts! You win!" self)
      else if dealer_val >? player_final self
           then set_state "round_over" (set_status_text "Dealer wins!" self)
           else set_status_text "Dealer hits..." self in
    Some (request_redraw self, r).

End WithFiles.

(** [_compute_card_positions], for the card area [area_x], [area_w] of the
    layout. *)
Definition _compute_card_positions (area_x area_w : Z) (num_cards row_y : Z)
    : list (Z * Z) :=
  if num_cards <=? 0 then []
  else
    let spacing := CARD_W + 6 in
    let total_width := spacing * (num_cards - 1) + CARD_W in
    let '(spacing, total_width) :=
      if total_width >? area_w then
        let spacing :=
          Z.max 2 ((area_w - CARD_W) / Z.max 1 (num_cards - 1)) in
        (spacing, spacing * (num_cards - 1) + CARD_W)
      else (spacing, total_width) in
    let start_x := area_x + (area_w - total_width) / 2 in
    let xs := (fun i => start_x + i * spacing) <$> py_range num_cards in
    let ys := replicate (Z.to_nat num_cards) row_y in
    zip xs ys.

End Blackjack.

(** [int] for the strings the law speaks of, [ValueError] for the rest: an
    inhabitant of [PyInt] to run the code on. *)
Definition digits_only_int : PyInt :=
  {| py_int := fun s => match s with
                        | EmptyString => None
                        | String _ _ => digits_value 0 s
                        end;
     py_int_digits := fun c s n Hd => Hd |}.

(** ** The shuffle *)

Lemma list_getitem_in {A} (lst : list A) (i : Z) :
  0 <= i < Z.of_nat (length lst) -> list_getitem lst i = lst !! Z.to_nat i.
Proof. intros Hi. unfold list_getitem. by rewrite py_index_in. Qed.

Lemma list_setitem_in {A} (lst : list A) (i : Z) (v : A) :
  0 <= i < Z.of_nat (length lst) ->
  list_setitem lst i v = Some (<[Z.to_nat i := v]> lst).
Proof. intros Hi. unfold list_setitem. by rewrite py_index_in. Qed.

Lemma py_range_down_lookup (n : Z) (k : nat) (i : Z) :
  py_range_down n !! k = Some i -> 1 <= i <= n.
Proof.
  intros Hk. apply list_elem_of_lookup_2 in Hk.
  unfold py_range_down in Hk. apply elem_of_reverse, elem_of_seqZ in Hk. lia.
Qed.

Lemma py_range_down_length (n : Z) : length (py_range_down n) = Z.to_nat n.
Proof. unfold py_range_down. by rewrite length_reverse, length_seqZ. Qed.

Lemma mp_shuffle_effect {A : Type} (lst : list A) (r : rng) :
  exists lst',
    mp_shuffle lst r
    = Some (lst', mkRng (rng_values r) (rng_calls r + (length lst - 1)))
    /\ lst' ≡ₚ lst.
Proof.
  unfold mp_shuffle.
  match goal with
  | |- exists _, for_each ?xs ?body ?s = _ /\ _ =>
      destruct (for_each_invariant xs body
                  (fun k '(l, r') =>
                     l ≡ₚ lst
                     /\ r' = mkRng (rng_values r) (rng_calls r + k)) s)
        as ([lst' r'] & Hrun & Hperm & Hr)
  end.
  - split; [done|]. destruct r. simpl. f_equal. lia.
  - intros k i [l r1] Hi%py_range_down_lookup [Hl ->].
    assert (Hlen : length l = length lst) by by rewrite Hl.
    unfold next_random. cbn [rng_values rng_calls].
    set (j := rng_values r (rng_calls r + k)%nat mod (i + 1)).
    assert (Hj : 0 <= j < i + 1) by (apply Z.mod_pos_bound; lia).
    rewrite !list_getitem_in by lia.
    destruct (lookup_lt_is_Some_2 l (Z.to_nat j)) as [a Ha]; [lia|].
    destruct (lookup_lt_is_Some_2 l (Z.to_nat i)) as [b Hb]; [lia|].
    rewrite Ha, Hb. simpl.
    rewrite list_setitem_in by lia. simpl.
    rewrite list_setitem_in by (rewrite length_insert; lia). simpl.
    eexists. split; [reflexivity|]. split.
    + rewrite <- Hl. by apply Permutation_insert_swap.
    + f_equal. lia.
  - exists lst'. split; [|done]. rewrite Hrun, Hr. do 3 f_equal.
    rewrite py_range_down_length. lia.
Qed.

(** [mp_shuffle] never fails, whatever the random values: it makes
    [len(lst) - 1] calls to the random module (none for an empty list) and
    leaves a permutation of the list it was given. *)
Theorem mp_shuffle_permutes {A : Type} (lst : list A) (r : rng) :
  exists lst',
    mp_shuffle lst r
    = Some (lst', mkRng (rng_values r) (rng_calls r + (length lst - 1)))
    /\ lst' ≡ₚ lst.
Proof. apply mp_shuffle_effect. Qed.

(** ** The deck *)

Lemma build_deck_NoDup : NoDup Blackjack._build_deck.
Proof. apply (bool_decide_unpack _). by vm_compute. Qed.

Lemma build_deck_length : length Blackjack._build_deck = 52%nat.
Proof. reflexivity. Qed.

Lemma list_pop_snoc {A} (l : list A) (x : A) :
  list_pop (l ++ [x]) = Some (l, x).
Proof.
  unfold list_pop. rewrite reverse_snoc. by rewrite reverse_involutive.
Qed.

Lemma list_pop_Some {A} (l l' : list A) (x : A) :
  list_pop l = Some (l', x) <-> l = l' ++ [x].
Proof.
  split; [|intros ->; apply list_pop_snoc].
  unfold list_pop. destruct (reverse l) as [|y rest] eqn:Hr; [done|].
  intros [= <- <-]. rewrite <- (reverse_involutive l), Hr.
  by rewrite reverse_cons.
Qed.

Lemma list_pop_None {A} (l : list A) : list_pop l = None <-> l = [].
Proof.
  unfold list_pop. split.
  - destruct (reverse l) as [|y rest] eqn:Hr; [|done]. intros _.
    by rewrite <- (reverse_involutive l), Hr.
  - by intros ->.
Qed.

Section DeckFacts.

Variable files : gmap string (list Z).
Context `{PyInt}.

(** Every card of a list is one of the 52 of [_build_deck]. *)
Definition standard_cards (l : list string) : Prop :=
  Forall (fun c => c ∈ Blackjack._build_deck) l.

Lemma draw_card_effect (self : Blackjack.t) (r : rng) :
  exists card self' r',
    Blackjack._draw_card_id self r = Some (card, self', r')
    /\ self' = Blackjack.set_deck (Blackjack.deck self') self
    /\ (Blackjack.deck self <> [] ->
        Blackjack.deck self = Blackjack.deck self' ++ [card] /\ r' = r)
    /\ (Blackjack.deck self = [] ->
        Blackjack.deck self' ++ [card] ≡ₚ Blackjack._build_deck
        /\ length (Blackjack.deck self') = 51%nat
        /\ rng_calls r' = (rng_calls r + 51)%nat).
Proof.
  unfold Blackjack._draw_card_id.
  destruct (decide (Blackjack.deck self = [])) as [Hempty|Hne].
  - rewrite bool_decide_eq_true_2 by done.
    destruct (mp_shuffle_effect Blackjack._build_deck r)
      as (d & -> & Hperm). simpl.
    assert (Hlen : length d = 52%nat) by by rewrite Hperm.
    destruct (list_pop d) as [[d' card]|] eqn:Hpop.
    + apply list_pop_Some in Hpop as ->. simpl.
      eexists _, _, _. split; [reflexivity|]. split; [done|].
      split; [done|]. intros _. split; [done|].
      rewrite length_app in Hlen. simpl in Hlen.
      cbn [Blackjack.deck Blackjack.set_deck rng_calls].
      split; [lia|]. change (length Blackjack._build_deck) with 52%nat. lia.
    + apply list_pop_None in Hpop as ->. done.
  - rewrite bool_decide_eq_false_2 by done. simpl.
    destruct (list_pop (Blackjack.deck self)) as [[d' card]|] eqn:Hpop.
    + apply list_pop_Some in Hpop. simpl.
      eexists _, _, _. split; [reflexivity|]. split; [done|].
      split; [done|]. intros Hc. by destruct Hne.
    + apply list_pop_None in Hpop. by destruct Hne.
Qed.

(** Drawing a card never fails.  From a deck that is not empty it takes
    the last card and uses no random value.  From an empty deck it first
    builds and shuffles a full deck, so the card drawn and the 51 cards
    left are the 52 standard cards, each once. *)
Theorem draw_card_never_fails (self : Blackjack.t) (r : rng) :
  exists card self' r',
    Blackjack._draw_card_id self r = Some (card, self', r')
    /\ self' = Blackjack.set_deck (Blackjack.deck self') self
    /\ (Blackjack.deck self <> [] ->
        Blackjack.deck self = Blackjack.deck self' ++ [card] /\ r' = r)
    /\ (Blackjack.deck self = [] ->
        Blackjack.deck self' ++ [card] ≡ₚ Blackjack._build_deck
        /\ length (Blackjack.deck self') = 51%nat
        /\ rng_calls r' = (rng_calls r + 51)%nat).
Proof. apply draw_card_effect. Qed.

Lemma draw_card_standard (self : Blackjack.t) (r : rng) card self' r' :
  Blackjack._draw_card_id self r = Some (card, self', r') ->
  standard_cards (Blackjack.deck self) ->
  card ∈ Blackjack._build_deck
  /\ standard_cards (Blackjack.deck self')
  /\ self' = Blackjack.set_deck (Blackjack.deck self') self.
Proof.
  intros Hdraw Hstd.
  destruct (draw_card_effect self r)
    as (c & s & r1 & Heq & Hset & Hne & Hempty).
  rewrite Heq in Hdraw. injection Hdraw as -> -> ->.
  split; [|split; [|done]].
  - destruct (decide (Blackjack.deck self = [])) as [He|Hn].
    + destruct (Hempty He) as (Hperm & _). rewrite <- Hperm.
      apply elem_of_app. right. by apply list_elem_of_singleton.
    + destruct (Hne Hn) as [Hd _]. unfold standard_cards in Hstd.
      rewrite Hd in Hstd. apply Forall_app in Hstd as [_ Hc].
      exact (proj1 (Forall_singleton _ _) Hc).
  - destruct (decide (Blackjack.deck self = [])) as [He|Hn].
    + destruct (Hempty He) as (Hperm & _).
      apply Forall_forall. intros c Hc. rewrite <- Hperm.
      apply elem_of_app. by left.
    + destruct (Hne Hn) as [Hd _]. unfold standard_cards in Hstd.
      rewrite Hd in Hstd. by apply Forall_app in Hstd as [? _].
Qed.

End DeckFacts.

(** ** Hand values *)

(** The ace loop as the source writes it. *)
Lemma soften_loop_fuel : forall (fuel1 fuel2 : nat) (total aces : Z),
  (Z.to_nat aces <= fuel1)%nat -> (Z.to_nat aces <= fuel2)%nat ->
  Blackjack.soften_loop fuel1 total aces
  = Blackjack.soften_loop fuel2 total aces.
Proof.
  induction fuel1 as [|fuel1 IH]; intros [|fuel2] total aces H1 H2; simpl;
    try done.
  - destruct (aces >? 0) eqn:E; [|by rewrite andb_false_r].
    rewrite Z.gtb_ltb in E. apply Z.ltb_lt in E. lia.
  - destruct (aces >? 0) eqn:E; [|by rewrite andb_false_r].
    rewrite Z.gtb_ltb in E. apply Z.ltb_lt in E. lia.
  - destruct ((total >? 21) && (aces >? 0)) eqn:E; [|done].
    apply IH; lia.
Qed.

Lemma soften_unfold (total aces : Z) :
  Blackjack.soften total aces
  = if (total >? 21) && (aces >? 0)
    then Blackjack.soften (total - 10) (aces - 1)
    else total.
Proof.
  unfold Blackjack.soften at 1.
  destruct (Z.to_nat aces) as [|k] eqn:Hk; simpl.
  - destruct (aces >? 0) eqn:E; [|by rewrite andb_false_r].
    rewrite Z.gtb_ltb in E. apply Z.ltb_lt in E. lia.
  - destruct ((total >? 21) && (aces >? 0)); [|done].
    apply soften_loop_fuel; lia.
Qed.

Lemma soften_spec (n : nat) : forall total aces : Z,
  Z.to_nat aces = n -> 0 <= aces ->
  exists k,
    0 <= k <= aces
    /\ Blackjack.soften total aces = total - 10 * k
    /\ (total - 10 * k <= 21 \/ k = aces)
    /\ (0 < k -> 21 < total - 10 * k + 10).
Proof.
  induction n as [|n IH]; intros total aces Hn Ha; rewrite soften_unfold.
  - replace aces with 0 by lia. rewrite andb_false_r.
    exists 0. repeat split; lia.
  - destruct (total >? 21) eqn:Et; rewrite Z.gtb_ltb in Et;
      [apply Z.ltb_lt in Et | apply Z.ltb_ge in Et].
    + rewrite (proj2 (Z.gtb_lt aces 0)) by lia. simpl.
      destruct (IH (total - 10) (aces - 1)) as (k & Hk & -> & Hle & Hmin);
        [lia..|].
      exists (k + 1). repeat split; lia.
    + simpl. exists 0. repeat split; lia.
Qed.

Section HandFacts.

Context `{PyInt}.

(** The points of a card, an ace at 11, and whether it is an ace. *)
Definition card_points (cid : string) : Z :=
  match Blackjack.card_value cid with Some (v, _) => v | None => 0 end.

Definition card_is_ace (cid : string) : Z :=
  match Blackjack.card_value cid with Some (_, a) => a | None => 0 end.

Definition hard_total (hand : list string) : Z :=
  foldr (fun cid acc => card_points cid + acc) 0 hand.

Definition ace_count (hand : list string) : Z :=
  foldr (fun cid acc => card_is_ace cid + acc) 0 hand.

Lemma deck_card_values :
  Forall (fun cid => exists v a,
            Blackjack.card_value cid = Some (v, a)
            /\ 2 <= v <= 11 /\ 0 <= a <= 1 /\ (a = 1 <-> v = 11))
         Blackjack._build_deck.
Proof.
  let d := eval vm_compute in Blackjack._build_deck in
  change Blackjack._build_deck with d.
  repeat (apply Forall_cons; split;
          [unfold Blackjack.card_value; simpl;
           try (erewrite py_int_digits by (vm_compute; reflexivity); simpl);
           eexists _, _; split; [reflexivity|lia] |]).
  apply Forall_nil_2.
Qed.

Lemma standard_card_value (cid : string) :
  cid ∈ Blackjack._build_deck ->
  exists v a,
    Blackjack.card_value cid = Some (v, a)
    /\ 2 <= v <= 11 /\ 0 <= a <= 1 /\ (a = 1 <-> v = 11).
Proof. intros Hc. by apply (proj1 (Forall_forall _ _) deck_card_values). Qed.

Lemma hand_fold (hand : list string) : forall total aces : Z,
  Forall (fun cid => is_Some (Blackjack.card_value cid)) hand ->
  for_each hand
    (fun cid '(total, aces) =>
       '(val, ace) ← Blackjack.card_value cid;
       Some (total + val, aces + ace))
    (total, aces)
  = Some (total + hard_total hand, aces + ace_count hand).
Proof.
  induction hand as [|cid hand IH]; intros total aces Hall; simpl.
  - by rewrite !Z.add_0_r.
  - apply Forall_cons in Hall as [[[v a] Hv] Hall].
    unfold card_points, card_is_ace. rewrite Hv. simpl.
    rewrite IH by done. do 2 f_equal; lia.
Qed.

Lemma standard_hand_bounds (hand : list string) :
  standard_cards hand ->
  Forall (fun cid => is_Some (Blackjack.card_value cid)) hand
  /\ 0 <= ace_count hand <= Z.of_nat (length hand)
  /\ 2 * Z.of_nat (length hand) + 9 * ace_count hand <= hard_total hand
  /\ hard_total hand <= 10 * Z.of_nat (length hand) + ace_count hand.
Proof.
  induction 1 as [|cid hand Hc Hstd (IHall & IHa & IHlo & IHhi)].
  - simpl. repeat split; (constructor || lia).
  - destruct (standard_card_value cid Hc) as (v & a & Hv & Hvb & Hab & Hace).
    split; [constructor; [by rewrite Hv | done]|].
    cbn [hard_total ace_count foldr length].
    fold (hard_total hand). fold (ace_count hand).
    unfold card_points, card_is_ace. rewrite Hv.
    rewrite Nat2Z.inj_succ.
    assert (a = 0 \/ a = 1) as [->| ->] by lia.
    + assert (v <> 11) by (intros Hv11; apply Hace in Hv11; lia). lia.
    + assert (v = 11) by (by apply Hace). lia.
Qed.

Lemma hand_value_effect (hand : list string) :
  standard_cards hand ->
  exists v,
    Blackjack._hand_value hand = Some v
    /\ (v <= 21 <-> hard_total hand - 10 * ace_count hand <= 21)
    /\ hard_total hand - 10 * ace_count hand <= v.
Proof.
  intros Hstd.
  destruct (standard_hand_bounds hand Hstd) as (Hall & Ha & Hlo & Hhi).
  unfold Blackjack._hand_value. rewrite hand_fold by done.
  rewrite !Z.add_0_l. cbn [mbind option_bind].
  destruct (soften_spec (Z.to_nat (ace_count hand)) (hard_total hand)
              (ace_count hand) eq_refl ltac:(lia))
    as (k & Hk & -> & Hle & Hmin).
  eexists. split; [reflexivity|]. split; lia.
Qed.

(** On cards of the deck [_hand_value] never raises.  It counts every ace
    as 11 and then, only while the total is over 21, turns aces into 1 one
    at a time: the value is 21 or less exactly when counting every ace as
    1 gives 21 or less, and an ace is counted as 1 only if counting it as
    11 would go over 21. *)
Theorem hand_value_counts_aces_high (hand : list string) :
  standard_cards hand ->
  exists k,
    Blackjack._hand_value hand = Some (hard_total hand - 10 * k)
    /\ 0 <= k <= ace_count hand
    /\ (hard_total hand - 10 * k <= 21
        <-> hard_total hand - 10 * ace_count hand <= 21)
    /\ (0 < k -> 21 < hard_total hand - 10 * k + 10)
    /\ Z.of_nat (length hand) <= hard_total hand - 10 * k.
Proof.
  intros Hstd.
  destruct (standard_hand_bounds hand Hstd) as (Hall & Ha & Hlo & Hhi).
  unfold Blackjack._hand_value. rewrite hand_fold by done.
  rewrite !Z.add_0_l. cbn [mbind option_bind].
  destruct (soften_spec (Z.to_nat (ace_count hand)) (hard_total hand)
              (ace_count hand) eq_refl ltac:(lia))
    as (k & Hk & -> & Hle & Hmin).
  exists k. repeat split; try lia.
Qed.

(** In the model, where [None] is any exception, the outcome of
    [_hand_value] does not depend on the order of the cards. *)
Lemma hand_value_perm (hand1 hand2 : list string) :
  hand1 ≡ₚ hand2 ->
  Blackjack._hand_value hand1 = Blackjack._hand_value hand2.
Proof.
  intros Hperm. unfold Blackjack._hand_value.
  assert (Hfold : forall s,
    for_each hand1
      (fun cid '(total, aces) =>
         '(val, ace) ← Blackjack.card_value cid;
         Some (total + val, aces + ace)) s
    = for_each hand2
        (fun cid '(total, aces) =>
           '(val, ace) ← Blackjack.card_value cid;
           Some (total + val, aces + ace)) s).
  { induction Hperm as [|x l l' _ IH|x y l|l l' l'' _ IH1 _ IH2];
      intros [t a]; simpl.
    - done.
    - destruct (Blackjack.card_value x) as [[v c]|]; simpl; [apply IH|done].
    - destruct (Blackjack.card_value x) as [[vx cx]|],
               (Blackjack.card_value y) as [[vy cy]|]; simpl; try done.
      replace (t + vy + vx) with (t + vx + vy) by lia.
      by replace (a + cy + cx) with (a + cx + cy) by lia.
    - by rewrite IH1, IH2. }
  by rewrite Hfold.
Qed.

(** Reordering a hand changes neither whether [_hand_value] returns nor
    what it returns: the reordered hand has the same value whenever the
    hand has one, and raises exactly when the hand raises.  Which exception
    is raised is not part of the statement: the first bad card in order
    decides it, [IndexError] for one without an underscore and
    [ValueError] for one whose rank is no number. *)
Theorem hand_value_ignores_order (hand1 hand2 : list string) :
  hand1 ≡ₚ hand2 ->
  (forall v : Z,
      Blackjack._hand_value hand1 = Some v
      <-> Blackjack._hand_value hand2 = Some v)
  /\ (Blackjack._hand_value hand1 = None
      <-> Blackjack._hand_value hand2 = None).
Proof.
  intros Hperm. by rewrite (hand_value_perm hand1 hand2 Hperm).
Qed.

(** A card id without an underscore makes [_hand_value] raise, wherever
    it is in the hand. *)
Theorem hand_value_needs_underscore (before after : list string)
    (cid : string) :
  Blackjack.after_underscore cid = None ->
  Blackjack._hand_value (before ++ cid :: after) = None.
Proof.
  intros Hbad. unfold Blackjack._hand_value.
  assert (Hfold : forall s,
    for_each (before ++ cid :: after)
      (fun cid '(total, aces) =>
         '(val, ace) ← Blackjack.card_value cid;
         Some (total + val, aces + ace)) s = None).
  { induction before as [|c before IH]; intros [t a]; simpl.
    - unfold Blackjack.card_value. by rewrite Hbad.
    - destruct (Blackjack.card_value c) as [[v k]|]; simpl; [apply IH|done]. }
  by rewrite Hfold.
Qed.

End HandFacts.

Lemma hand_value_counts_aces_high_witness :
  exists k,
    Blackjack._hand_value (H := digits_only_int)
      ["Hearts_ACE"; "Clubs_ACE"; "Spades_9"]
    = Some (hard_total (H := digits_only_int)
              ["Hearts_ACE"; "Clubs_ACE"; "Spades_9"] - 10 * k)
    /\ 0 <= k <= ace_count (H := digits_only_int)
                    ["Hearts_ACE"; "Clubs_ACE"; "Spades_9"].
Proof.
  destruct (hand_value_counts_aces_high (H := digits_only_int)
              ["Hearts_ACE"; "Clubs_ACE"; "Spades_9"]) as (k & Hv & Hk & _).
  - repeat constructor; apply (bool_decide_unpack _); by vm_compute.
  - exists k. split; [exact Hv | exact Hk].
Defined.

Lemma hand_value_ignores_order_witness :
  ["Spades_9"; "Hearts_ACE"] ≡ₚ ["Hearts_ACE"; "Spades_9"]
  /\ Blackjack._hand_value (H := digits_only_int) ["Hearts_ACE"; "Spades_9"]
     = Some 20.
Proof.
  split; [apply Permutation_swap|].
  apply (proj1 (hand_value_ignores_order (H := digits_only_int)
                  ["Spades_9"; "Hearts_ACE"] ["Hearts_ACE"; "Spades_9"]
                  (Permutation_swap _ _ _)) 20).
  reflexivity.
Defined.

Lemma hand_value_needs_underscore_witness :
  Blackjack._hand_value (H := digits_only_int)
    ["Hearts_K"; "HeartsQ"; "Clubs_2"] = None.
Proof.
  apply (hand_value_needs_underscore (H := digits_only_int)
           ["Hearts_K"] ["Clubs_2"] "HeartsQ").
  reflexivity.
Defined.

(** ** Rounds *)

Section RoundFacts.

Variable files : gmap string (list Z).
Context `{PyInt}.

Lemma draw_card_shape (self : Blackjack.t) (r : rng) :
  exists card d' r',
    Blackjack._draw_card_id self r
    = Some (card, Blackjack.set_deck d' self, r')
    /\ (Blackjack.deck self <> [] ->
        Blackjack.deck self = d' ++ [card] /\ r' = r)
    /\ (standard_cards (Blackjack.deck self) ->
        card ∈ Blackjack._build_deck /\ standard_cards d').
Proof.
  destruct (draw_card_effect self r)
    as (card & self' & r' & Heq & Hset & Hne & Hempty).
  exists card, (Blackjack.deck self'), r'.
  split; [by rewrite <- Hset|]. split; [exact Hne|].
  intros Hstd.
  destruct (draw_card_standard self r card self' r' Heq Hstd) as (? & ? & _).
  done.
Qed.

Lemma single_card_value (card : string) :
  card ∈ Blackjack._build_deck ->
  exists v, Blackjack._hand_value [card] = Some v /\ v <= 21.
Proof.
  intros Hc.
  assert (Hstd : standard_cards [card]) by (by apply Forall_singleton).
  destruct (hand_value_effect [card] Hstd) as (v & Hv & Hiff & _).
  destruct (standard_hand_bounds [card] Hstd) as (_ & Ha & _ & Hhi).
  exists v. split; [done|]. apply Hiff.
  change (Z.of_nat (length [card])) with 1 in Ha, Hhi. lia.
Qed.

(** What holds of the game between calls: all cards are standard cards;
    while it is the player's turn the player's hand is worth 21 or less;
    during the dealer's turn [player_final] is the value of the player's
    hand, 21 or less. *)
Definition round_ok (s : Blackjack.t) : Prop :=
  standard_cards (Blackjack.deck s)
  /\ standard_cards (Blackjack.player_cards s)
  /\ standard_cards (Blackjack.dealer_cards s)
  /\ (Blackjack.state s = "player_turn" ->
      exists v, Blackjack._hand_value (Blackjack.player_cards s) = Some v
                /\ v <= 21)
  /\ (Blackjack.state s = "dealer_turn" ->
      Blackjack._hand_value (Blackjack.player_cards s)
      = Some (Blackjack.player_final s)
      /\ Blackjack.player_final s <= 21).

(** [_reset_round] fails exactly when the file of the card back it picks
    is missing.  Otherwise it makes 52 calls to the random module (one for
    the back, 51 for the shuffle) and leaves the player's turn with one
    card each for player and dealer and 50 cards in the deck, which
    together are the 52 standard cards. *)
Theorem reset_round_deals (self : Blackjack.t) (r : rng) :
  let back := Blackjack.CARD_PATH_ROOT +:+ "Back_"
              +:+ py_str (rng_values r (rng_calls r)) +:+ ".bin" in
  (Blackjack._reset_round files self r = None <-> files !! back = None)
  /\ forall self' r',
       Blackjack._reset_round files self r = Some (self', r') ->
       round_ok self'
       /\ Blackjack.state self' = "player_turn"
       /\ Blackjack.needs_redraw self' = true
       /\ (exists c1 c2,
             Blackjack.player_cards self' = [c1]
             /\ Blackjack.dealer_cards self' = [c2]
             /\ Blackjack.deck self' ++ [c2; c1] ≡ₚ Blackjack._build_deck)
       /\ length (Blackjack.deck self') = 50%nat
       /\ rng_calls r' = (rng_calls r + 52)%nat.
Proof.
  cbv zeta. unfold Blackjack._reset_round, next_random,
    Blackjack._load_card_sprite, Blackjack.load_sprite_rgb565.
  destruct (files !! _) as [data|] eqn:Hfile; simpl; [|by split].
  destruct (mp_shuffle_effect Blackjack._build_deck
              (mkRng (rng_values r) (S (rng_calls r))))
    as (d & -> & Hperm). simpl.
  assert (Hlen : length d = 52%nat) by by rewrite Hperm.
  assert (Hstd : standard_cards d).
  { apply Forall_forall. intros c Hc. by rewrite <- Hperm. }
  match goal with
  | |- context [Blackjack._draw_card_id ?s ?r0] =>
      destruct (draw_card_shape s r0) as (c1 & d1 & r1 & -> & Hne1 & Hstd1)
  end.
  simpl in Hne1, Hstd1.
  destruct Hne1 as [-> ->]; [by destruct d|].
  destruct (Hstd1 Hstd) as [Hc1 Hd1]. simpl.
  match goal with
  | |- context [Blackjack._draw_card_id ?s ?r0] =>
      destruct (draw_card_shape s r0) as (c2 & d2 & r2 & -> & Hne2 & Hstd2)
  end.
  simpl in Hne2, Hstd2.
  rewrite length_app in Hlen. simpl in Hlen.
  destruct Hne2 as [-> ->]; [destruct d1; [simpl in Hlen; lia | done]|].
  destruct (Hstd2 Hd1) as [Hc2 Hd2]. simpl.
  split; [by split|].
  intros self' r' [= <- <-]. simpl.
  rewrite length_app in Hlen. simpl in Hlen.
  split; [|repeat split].
  - unfold round_ok. simpl.
    split; [done|]. split; [by apply Forall_singleton|].
    split; [by apply Forall_singleton|].
    split; [intros _; by apply single_card_value | done].
  - exists c1, c2. split; [done|]. split; [done|].
    rewrite <- Hperm, <- app_assoc. done.
  - lia.
  - lia.
Qed.

(** The buttons never raise on a game in order, and keep it in order.
    Outside the player's turn HIT and STAND change nothing and draw no
    card.  HIT in the player's turn adds one card to the player's hand and
    ends the round exactly when the hand is then worth more than 21, so a
    player who is bust cannot hit or stand again.  STAND records the
    value of the hand, 21 or less, and hands over to the dealer. *)
Theorem buttons_keep_round_ok (self : Blackjack.t) (r : rng) :
  round_ok self ->
  (exists self' r',
      Blackjack.on_left_pressed self r = Some (self', r')
      /\ round_ok self'
      /\ (Blackjack.state self <> "player_turn" -> self' = self /\ r' = r)
      /\ (Blackjack.state self = "player_turn" ->
          exists card v,
            Blackjack.player_cards self'
            = Blackjack.player_cards self ++ [card]
            /\ Blackjack._hand_value (Blackjack.player_cards self') = Some v
            /\ Blackjack.state self'
               = (if v >? 21 then "round_over" else "player_turn")
            /\ Blackjack.dealer_cards self' = Blackjack.dealer_cards self))
  /\ (exists self',
        Blackjack.on_right_pressed self = Some self'
        /\ round_ok self'
        /\ (Blackjack.state self <> "player_turn" -> self' = self)
        /\ (Blackjack.state self = "player_turn" ->
            Blackjack.state self' = "dealer_turn"
            /\ Blackjack._hand_value (Blackjack.player_cards self)
               = Some (Blackjack.player_final self')
            /\ Blackjack.player_final self' <= 21
            /\ Blackjack.player_cards self' = Blackjack.player_cards self
            /\ Blackjack.dealer_cards self' = Blackjack.dealer_cards self
            /\ Blackjack.deck self' = Blackjack.deck self)).
Proof.
  intros (Hdeck & Hplayer & Hdealer & Hturn & Hdturn). split.
  - unfold Blackjack.on_left_pressed.
    destruct (String.eqb (Blackjack.state self) "player_turn") eqn:Est.
    + apply String.eqb_eq in Est. simpl.
      unfold Blackjack._player_hit.
      destruct (draw_card_shape self r) as (card & d' & r' & -> & _ & Hstd).
      destruct (Hstd Hdeck) as [Hcard Hd']. simpl.
      assert (Hhand : standard_cards (Blackjack.player_cards self ++ [card]))
        by (apply Forall_app; split; [done | by apply Forall_singleton]).
      destruct (hand_value_effect _ Hhand) as (v & Hv & _).
      rewrite Hv. simpl. eexists _, _. split; [reflexivity|].
      split; [|split; [by intros []|]].
      * unfold round_ok.
        destruct (v >? 21) eqn:Ev; simpl;
          (split; [done|]); (split; [done|]); (split; [done|]).
        -- split; intros Hs; discriminate Hs.
        -- split.
           ++ intros _. exists v. split; [done|].
              rewrite Z.gtb_ltb in Ev. apply Z.ltb_ge in Ev. lia.
           ++ rewrite Est. intros Hs. discriminate Hs.
      * intros _. exists card, v.
        destruct (v >? 21) eqn:Ev; simpl; by rewrite ?Est.
    + apply String.eqb_neq in Est. simpl. exists self, r.
      split; [done|]. split; [done|]. split; [done|]. by intros ?.
  - unfold Blackjack.on_right_pressed.
    destruct (String.eqb (Blackjack.state self) "player_turn") eqn:Est.
    + apply String.eqb_eq in Est. simpl.
      unfold Blackjack._player_stand.
      destruct (Hturn Est) as (v & Hv & Hle). rewrite Hv. simpl.
      eexists. split; [reflexivity|].
      split; [|split; [by intros []|]].
      * unfold round_ok. simpl.
        (split; [done|]); (split; [done|]); (split; [done|]).
        split; [intros Hs; discriminate Hs | done].
      * intros _. simpl. repeat split; done.
    + apply String.eqb_neq in Est. simpl. exists self.
      split; [done|]. split; [done|]. split; [done|]. by intros ?.
Qed.

End RoundFacts.

Section DealerFacts.

Variable files : gmap string (list Z).
Context `{PyInt}.

(** A step of the dealer never raises on a game in order and keeps it in
    order.  The message it leaves tells the truth about the dealer's hand
    as it then is, worth [v]: dealer wins only with
    [player_final < v <= 21]; a draw only at 21 each; dealer busts only
    with [v > 21]; and the dealer goes on (the state unchanged) only with
    [v <= player_final] and [v <= 21].  The dealer takes at most one card
    and the player's side is not touched. *)
Theorem dealer_step_outcomes (self : Blackjack.t) (r : rng) :
  round_ok self ->
  exists self' r' v,
    Blackjack._dealer_step self r = Some (self', r')
    /\ round_ok self'
    /\ Blackjack._hand_value (Blackjack.dealer_cards self') = Some v
    /\ ((Blackjack.status_text self' = "Dealer wins!"
         /\ Blackjack.state self' = "round_over"
         /\ Blackjack.player_final self < v <= 21)
        \/ (Blackjack.status_text self' = "Draw!"
            /\ Blackjack.state self' = "round_over"
            /\ v = 21 /\ Blackjack.player_final self = 21)
        \/ (Blackjack.status_text self' = "Dealer busts! You win!"
            /\ Blackjack.state self' = "round_over"
            /\ 21 < v)
        \/ (Blackjack.status_text self' = "Dealer hits..."
            /\ Blackjack.state self' = Blackjack.state self
            /\ v <= Blackjack.player_final self /\ v <= 21))
    /\ Blackjack.player_final self' = Blackjack.player_final self
    /\ Blackjack.player_cards self' = Blackjack.player_cards self
    /\ (Blackjack.dealer_cards self' = Blackjack.dealer_cards self
        \/ exists card,
             Blackjack.dealer_cards self' = Blackjack.dealer_cards self ++ [card])
    /\ Blackjack.needs_redraw self' = true.
Proof.
  intros (Hdeck & Hplayer & Hdealer & Hturn & Hdturn).
  unfold Blackjack._dealer_step.
  destruct (hand_value_effect _ Hdealer) as (v0 & Hv0 & _).
  rewrite Hv0. simpl.
  destruct (Z.ltb_spec (Blackjack.player_final self) v0) as [Hlt|Hge];
    destruct (Z.leb_spec v0 21) as [Hle|Hgt]; simpl.
  1: { eexists _, _, v0. split; [reflexivity|]. simpl.
       split; [|split; [done|]].
       - unfold round_ok. simpl.
         (split; [done|]); (split; [done|]); (split; [done|]).
         split; intros Hs; discriminate Hs.
       - split; [left; repeat split; (done || lia)|].
         repeat split; try done. by left. }
  all: destruct (Z.eqb_spec v0 (Blackjack.player_final self)) as [Heq|Hneq];
    [destruct (Z.eqb_spec v0 21) as [H21|Hn21]|]; simpl.
  all: try (eexists _, _, v0; split; [reflexivity|]; simpl;
            split; [unfold round_ok; simpl;
                    (split; [done|]); (split; [done|]); (split; [done|]);
                    split; intros Hs; discriminate Hs|];
            split; [done|];
            split; [right; left; repeat split; (done || lia)|];
            repeat split; try done; by left).
  all: destruct (draw_card_shape self r) as (card & d' & r' & -> & _ & Hstd);
    destruct (Hstd Hdeck) as [Hcard Hd']; simpl;
    assert (Hhand : standard_cards (Blackjack.dealer_cards self ++ [card]))
      by (apply Forall_app; split; [done | by apply Forall_singleton]);
    destruct (hand_value_effect _ Hhand) as (v & Hv & _);
    rewrite Hv; simpl;
    eexists _, _, v; (split; [reflexivity|]);
    destruct (Z.gtb_spec v 21) as [Hbust|Hok];
      [|destruct (Z.gtb_spec v (Blackjack.player_final self)) as [Hwin|Hno]];
    simpl;
    (split;
     [unfold round_ok; simpl;
      (split; [done|]); (split; [done|]); (split; [done|]);
      first [split; intros Hs; discriminate Hs | by split]|]);
    (split; [done|]);
    (split;
     [first [ right; right; left; repeat split; (done || lia)
            | left; repeat split; (done || lia)
            | right; right; right; repeat split; (done || lia) ]|]);
    repeat split; try done; right; by exists card.
Qed.

End DealerFacts.

(** A game in order to try the theorems on: the player's turn, a nine
    against a king, three cards left in the deck. *)
Definition sample_round : Blackjack.t :=
  Blackjack.mk false "player_turn" 0 (PicoGFX.mkSprite 37 52 [] None)
    ["Clubs_2"; "Hearts_ACE"; "Spades_10"] ["Hearts_9"] ["Clubs_K"]
    "Blackjack demo".

Lemma sample_round_ok : round_ok (H := digits_only_int) sample_round.
Proof.
  unfold round_ok, sample_round. simpl.
  (split; [repeat constructor; apply (bool_decide_unpack _); by vm_compute|]).
  (split; [repeat constructor; apply (bool_decide_unpack _); by vm_compute|]).
  (split; [repeat constructor; apply (bool_decide_unpack _); by vm_compute|]).
  split.
  - intros _. exists 9. split; [reflexivity|lia].
  - intros Hs. discriminate Hs.
Qed.

Lemma buttons_keep_round_ok_witness :
  exists self' r',
    Blackjack.on_left_pressed (H := digits_only_int) sample_round
      (mkRng (fun _ => 3) 0) = Some (self', r')
    /\ round_ok (H := digits_only_int) self'.
Proof.
  destruct (buttons_keep_round_ok (H := digits_only_int) sample_round
              (mkRng (fun _ => 3) 0) sample_round_ok)
    as [(self' & r' & Hhit & Hok & _) _].
  exists self', r'. split; [exact Hhit | exact Hok].
Defined.

Lemma dealer_step_outcomes_witness :
  exists self' r',
    Blackjack._dealer_step (H := digits_only_int) sample_round
      (mkRng (fun _ => 3) 0) = Some (self', r')
    /\ round_ok (H := digits_only_int) self'.
Proof.
  destruct (dealer_step_outcomes (H := digits_only_int) sample_round
              (mkRng (fun _ => 3) 0) sample_round_ok)
    as (self' & r' & v & Hstep & Hok & _).
  exists self', r'. split; [exact Hstep | exact Hok].
Defined.

(** ** Where the cards go *)

Lemma zip_fmap_replicate {A B C} (f : A -> B) (y : C) (l : list A) :
  zip (f <$> l) (replicate (length l) y) = (fun x => (f x, y)) <$> l.
Proof. induction l as [|x l IH]; [done|]. simpl. f_equal. exact IH. Qed.

Lemma card_positions_shape (area_x area_w num_cards row_y : Z) :
  exists start spacing,
    Blackjack._compute_card_positions area_x area_w num_cards row_y
    = (fun i => (start + i * spacing, row_y)) <$> py_range num_cards
    /\ 2 <= spacing <= Blackjack.CARD_W + 6
    /\ (1 <= num_cards ->
        2 * (num_cards - 1) + Blackjack.CARD_W <= area_w ->
        area_x <= start
        /\ start + (num_cards - 1) * spacing + Blackjack.CARD_W
           <= area_x + area_w).
Proof.
  unfold Blackjack._compute_card_positions, Blackjack.CARD_W.
  destruct (Z.leb_spec num_cards 0) as [Hle|Hpos].
  - exists 0, 2. unfold py_range. rewrite seqZ_nil by lia.
    split; [done|]. split; lia.
  - cbv zeta.
    assert (Hzip : forall start spacing,
      zip ((fun i => start + i * spacing) <$> py_range num_cards)
          (replicate (Z.to_nat num_cards) row_y)
      = (fun i => (start + i * spacing, row_y)) <$> py_range num_cards).
    { intros. rewrite <- (py_range_length num_cards).
      apply zip_fmap_replicate. }
    rewrite Z.gtb_ltb.
    destruct (Z.ltb_spec area_w ((37 + 6) * (num_cards - 1) + 37))
      as [Hsq|Hfit].
    + rewrite Hzip. eexists _, _. split; [reflexivity|].
      set (q := (area_w - 37) / Z.max 1 (num_cards - 1)).
      split.
      * split; [lia|].
        assert (q < 43 \/ Z.max 2 q = 2) as [Hq|Hq]; [|lia|lia].
        destruct (Z_le_gt_dec num_cards 1) as [Hn1|Hn2].
        -- left. subst q. replace (Z.max 1 (num_cards - 1)) with 1 by lia.
           rewrite Z.div_1_r. lia.
        -- left. subst q. replace (Z.max 1 (num_cards - 1)) with (num_cards - 1) by lia.
           apply Z.div_lt_upper_bound; lia.
      * intros _ Hroom.
        assert (Hn2 : 2 <= num_cards) by lia.
        subst q.
        replace (Z.max 1 (num_cards - 1)) with (num_cards - 1) by lia.
        set (q := (area_w - 37) / (num_cards - 1)).
        assert (Hq2 : 2 <= q)
          by (subst q; apply Z.div_le_lower_bound; lia).
        assert (Hqn : q * (num_cards - 1) <= area_w - 37)
          by (subst q; rewrite Z.mul_comm; apply Z.mul_div_le; lia).
        replace (Z.max 2 q) with q by lia.
        assert (0 <= (area_w - (q * (num_cards - 1) + 37)) / 2
                <= area_w - (q * (num_cards - 1) + 37))
          by (split; [apply Z.div_pos; lia
                     | apply Z.div_le_upper_bound; lia]).
        nia.
    + rewrite Hzip. eexists _, _. split; [reflexivity|]. split; [lia|].
      intros _ _.
      assert (0 <= (area_w - ((37 + 6) * (num_cards - 1) + 37)) / 2
              <= area_w - ((37 + 6) * (num_cards - 1) + 37))
        by (split; [apply Z.div_pos; lia
                   | apply Z.div_le_upper_bound; lia]).
      lia.
Qed.

(** [_compute_card_positions] gives one position per card, all on the
    row, evenly spaced left to right by 2 to 43 pixels; and whenever the
    cards fit the card area at the least spacing
    ([2 * (n - 1) + CARD_W <= area_w]) every card lies within the area from
    its left to its right edge. *)
Theorem card_positions_within_area (area_x area_w num_cards row_y : Z) :
  let ps := Blackjack._compute_card_positions area_x area_w num_cards row_y in
  length ps = Z.to_nat num_cards
  /\ (forall p, p ∈ ps -> p.2 = row_y)
  /\ (exists spacing,
        2 <= spacing <= Blackjack.CARD_W + 6
        /\ forall (k : nat) p q,
             ps !! k = Some p -> ps !! S k = Some q ->
             q.1 = p.1 + spacing)
  /\ (2 * (num_cards - 1) + Blackjack.CARD_W <= area_w ->
      forall p, p ∈ ps ->
        area_x <= p.1 /\ p.1 + Blackjack.CARD_W <= area_x + area_w).
Proof.
  cbv zeta.
  destruct (card_positions_shape area_x area_w num_cards row_y)
    as (start & spacing & -> & Hsp & Hin).
  split; [by rewrite length_fmap, py_range_length|]. split; [|split].
  - intros p (i & -> & _)%list_elem_of_fmap. done.
  - exists spacing. split; [done|]. intros k p q.
    rewrite !list_lookup_fmap.
    destruct (py_range num_cards !! k) as [i|] eqn:Hi; [|done].
    destruct (py_range num_cards !! S k) as [j|] eqn:Hj; [|done].
    apply py_range_lookup in Hi as [-> _], Hj as [-> _].
    intros [= <-] [= <-]. simpl. lia.
  - intros Hroom p (i & -> & Hi)%list_elem_of_fmap.
    unfold py_range in Hi. apply elem_of_seqZ in Hi. simpl.
    destruct Hin as [Hlo Hhi]; [lia|done|]. nia.
Qed.

Lemma card_positions_within_area_witness :
  Forall (fun p => 28 <= p.1 /\ p.1 + Blackjack.CARD_W <= 28 + 184)
         (Blackjack._compute_card_positions 28 184 6 100).
Proof.
  apply Forall_forall.
  apply (card_positions_within_area 28 184 6 100).
  vm_compute. intros Hc. discriminate Hc.
Defined.

(** A flash holding one card back. *)
Definition sample_files : gmap string (list Z) :=
  {[ "/bin_files/Back_3.bin" := [0x12; 0x34] ]}.

Lemma reset_round_deals_witness :
  exists self' r',
    Blackjack._reset_round sample_files sample_round
      (mkRng (fun _ => 3) 0) = Some (self', r')
    /\ round_ok (H := digits_only_int) self'
    /\ length (Blackjack.deck self') = 50%nat.
Proof.
  destruct (reset_round_deals (H := digits_only_int) sample_files
              sample_round (mkRng (fun _ => 3) 0)) as [Hnone Hsome].
  destruct (Blackjack._reset_round sample_files
              sample_round (mkRng (fun _ => 3) 0)) as [[self' r']|] eqn:Hr.
  - exists self', r'. split; [reflexivity|].
    destruct (Hsome self' r' eq_refl) as (Hok & _ & _ & _ & Hlen & _).
    split; [exact Hok | exact Hlen].
  - destruct Hnone as [Hmissing _]. specialize (Hmissing eq_refl).
    vm_compute in Hmissing. discriminate Hmissing.
Defined.

Lemma clamp_origin_keeps_fitting_witness :
  PicoGFX.clamp_origin (PicoGFX.init ILI9341.default) 34 61 48 8 = (34, 61).
Proof.
  apply (clamp_origin_keeps_fitting (PicoGFX.init ILI9341.default)
           34 61 48 8); simpl; lia.
Defined.

(** * The wrappers kept for old code *)

(** [PicoGFX.draw_text_scaled(x, y, text, color=0xFFFF, bg=0x0000, scale=2)] *)
Definition draw_text_scaled `{FrameBuffer} (self : PicoGFX.t) (x y : Z)
    (text : string) (color bg scale : Z) : option (PicoGFX.t * bus_trace) :=
  PicoGFX.draw_text self x y text color (Some bg) scale.

(** [PicoGFX.make_text_sprite(text, color=0xFFFF, bg=0x0000, scale=1)] *)
Definition make_text_sprite `{FrameBuffer} (text : string)
    (color bg scale : Z) : option PicoGFX.sprite :=
  PicoGFX._render_text_sprite text color (Some bg) scale.

(** At scale 1 with a black background the old wrapper puts on the bus
    exactly what plain [draw_text] (no background, the fast path) puts
    there; unlike it, the wrapper goes through the text cache, where the
    sprite it leaves is the one [make_text_sprite] builds. *)
Theorem draw_text_scaled_black_is_draw_text `{FrameBuffer}
    (self : PicoGFX.t) (x y : Z) (text : string) (color : Z) :
  py_not text = false -> cache_ok self ->
  exists self' tr spr,
    PicoGFX.draw_text self x y text color None 1 = Some (self, tr)
    /\ draw_text_scaled self x y text color 0x0000 1 = Some (self', tr)
    /\ make_text_sprite text color 0x0000 1 = Some spr
    /\ PicoGFX._text_cache self' !! (text, color, Some 0x0000, 1) = Some spr.
Proof.
  intros Hne Hok.
  rewrite draw_text_fast by (done || lia).
  unfold draw_text_scaled, make_text_sprite, PicoGFX.draw_text.
  rewrite Hne. cbv zeta. change (1 <? 1) with false. cbv iota.
  assert (Hsz : PicoGFX.get_text_size text 1 = (8 * len text, 8))
    by (unfold PicoGFX.get_text_size; simpl; f_equal; lia).
  rewrite Hsz.
  destruct (PicoGFX.clamp_origin self x y (8 * len text) 8) as [x' y'].
  cbn [andb Z.eqb Pos.eqb fst snd]. unfold PicoGFX.draw_text_via_sprite.
  destruct (PicoGFX._get_text_sprite self text color (Some 0) 1)
    as [[self' spr]|] eqn:Hget;
    [|destruct (get_text_sprite_total self text color (Some 0) 1 Hok)
        as (? & ? & Hg & _); congruence].
  destruct (get_text_sprite_total self text color (Some 0) 1 Hok)
    as (self2 & spr2 & Hg & Hr & _).
  rewrite Hget in Hg. injection Hg as <- <-.
  destruct (get_text_sprite_effect _ _ _ _ _ _ _ Hget) as (Hin & _).
  destruct (render_text_sprite_total text color (Some 0) 1)
    as (data & Hr' & Hdata).
  assert (Hspr : spr = PicoGFX.mkSprite (8 * len text) 8
                         (base_buffer text color 0 0) None).
  { rewrite Hsz, Hdata in Hr' by lia. simpl in Hr'.
    change (ILI9341.hi8 0) with 0 in Hr'.
    change (ILI9341.lo8 0) with 0 in Hr'. congruence. }
  exists self', (ILI9341.blit_rgb565 x' y' (8 * len text) 8
                   (base_buffer text color 0 0)), spr.
  split; [done|]. split; [by rewrite Hspr|]. by split.
Qed.

Lemma draw_text_scaled_black_is_draw_text_witness :
  exists self' tr,
    PicoGFX.draw_text (H := Framebuf.sample) (PicoGFX.init ILI9341.default)
      20 30 "HIT" 0xFFFF None 1
    = Some (PicoGFX.init ILI9341.default, tr)
    /\ draw_text_scaled (H := Framebuf.sample) (PicoGFX.init ILI9341.default)
         20 30 "HIT" 0xFFFF 0x0000 1 = Some (self', tr).
Proof.
  destruct (draw_text_scaled_black_is_draw_text (H := Framebuf.sample)
              (PicoGFX.init ILI9341.default) 20 30 "HIT" 0xFFFF
              eq_refl (init_cache_ok _))
    as (self' & tr & spr & Hplain & Hscaled & _).
  exists self', tr. split; [exact Hplain | exact Hscaled].
Defined.
